(** * HyperLogLog register codec: [hyperloglog/compression.py]

    A shallow embedding of the four functions of the module
    ([pack_registers], [unpack_registers], [compress_sparse_registers],
    [decompress_sparse_registers]) and the properties of the codec that
    follow from the code.

    Python integers are unbounded and are modelled by [Z]; [bytes] objects
    are lists of [Byte.byte]; a raised exception is the [Err] case of a
    result type.  The few NumPy operations the module relies on (truth value
    of an array, iteration over an array, arithmetic on the scalars of an
    array, assignment into an [int32] array) are modelled explicitly,
    because the behaviour of the encoders is decided by them. *)

From Stdlib Require Import ZArith List Lia Bool.
From Stdlib.Strings Require Import Byte.
Import ListNotations.
Local Open Scope Z_scope.

(** ** Exceptions and the error monad *)

(** The place an exception comes from: the [raise] statements of the module
    and the exceptions of the built-in and NumPy operations it calls. *)
Inductive reason : Type :=
| binbits_not_positive            (* "binbits must be a positive integer" *)
| binbits_too_large               (* "binbits must be <= 64 ..." *)
| truth_value_ambiguous           (* NumPy: "The truth value of an array ... is ambiguous" *)
| register_not_int (i : nat)      (* "Register i must be an integer" *)
| register_negative (i : nat)     (* "Register i must be non-negative" *)
| register_exceeds_limit (i : nat)(* "Register i value ... exceeds ...-bit limit" *)
| total_bits_too_large            (* "Total bits (...) too large ..." *)
| m_negative                      (* "m must be a non-negative integer" *)
| insufficient_data               (* "Insufficient data: need ... bytes, got ..." *)
| negative_shift_count            (* int: "negative shift count" *)
| negative_dimensions             (* NumPy: "negative dimensions are not allowed" *)
| negative_length                 (* int.to_bytes: "length argument must be non-negative" *)
| negative_to_unsigned            (* int.to_bytes: "can't convert negative int to unsigned" *)
| int_too_big                     (* int.to_bytes: "int too big to convert" *)
| out_of_bounds_int32.            (* NumPy: "Python integer ... out of bounds for int32" *)

(** The exception classes that occur. *)
Inductive exn : Type :=
| ValueError (why : reason)
| OverflowError (why : reason)
| ZeroDivisionError
| AttributeError.                 (* a NumPy scalar has no attribute [to_bytes] *)

Inductive result (A : Type) : Type :=
| Ok (a : A)
| Err (e : exn).
Arguments Ok {A} a.
Arguments Err {A} e.

Definition bind {A B : Type} (r : result A) (k : A -> result B) : result B :=
  match r with
  | Ok a => k a
  | Err e => Err e
  end.

Notation "x <- r ;; k" := (bind r (fun x => k))
  (at level 61, r at next level, right associativity).
Notation "r ;;; k" := (bind r (fun _ => k))
  (at level 61, right associativity).

(** [for i, x in enumerate(l): body], where the body only checks. *)
Fixpoint for_each {A : Type} (body : nat -> A -> result unit) (i : nat) (l : list A)
  : result unit :=
  match l with
  | [] => Ok tt
  | x :: l' => body i x ;;; for_each body (S i) l'
  end.

(** [for i in range(...)] filling the cells of a fresh array one by one. *)
Fixpoint for_fill {A B : Type} (body : A -> result B) (l : list A) : result (list B) :=
  match l with
  | [] => Ok []
  | x :: l' => y <- body x ;; ys <- for_fill body l' ;; Ok (y :: ys)
  end.

(** ** Python integers and bytes *)

(** [a << n] and [a >> n] raise [ValueError] on a negative shift count. *)
Definition py_lshift (a n : Z) : result Z :=
  if n <? 0 then Err (ValueError negative_shift_count) else Ok (Z.shiftl a n).

Definition py_rshift (a n : Z) : result Z :=
  if n <? 0 then Err (ValueError negative_shift_count) else Ok (Z.shiftr a n).

(** [a // b]; [Z.div] rounds towards minus infinity as Python does. *)
Definition py_floordiv (a b : Z) : result Z :=
  if b =? 0 then Err ZeroDivisionError else Ok (a / b).

Definition bytes : Type := list byte.

Definition byte_value (c : byte) : Z := Z.of_N (Byte.to_N c).

Definition byte_of_Z (z : Z) : byte :=
  match Byte.of_N (Z.to_N z) with
  | Some c => c
  | None => x00
  end.

(** [range(n)] as the list of its values. *)
Definition range (n : Z) : list Z := map Z.of_nat (seq 0 (Z.to_nat n)).

(** The [n] low bytes of [x], least significant first. *)
Fixpoint le_bytes (n : nat) (x : Z) : bytes :=
  match n with
  | O => []
  | S n' => byte_of_Z (x mod 256) :: le_bytes n' (x / 256)
  end.

(** [x.to_bytes(length, byteorder='little')] (unsigned). *)
Definition to_bytes (x length : Z) : result bytes :=
  if length <? 0 then Err (ValueError negative_length)
  else if x <? 0 then Err (OverflowError negative_to_unsigned)
  else if 2 ^ (8 * length) <=? x then Err (OverflowError int_too_big)
  else Ok (le_bytes (Z.to_nat length) x).

(** [int.from_bytes(data, byteorder='little')]. *)
Fixpoint from_bytes (data : bytes) : Z :=
  match data with
  | [] => 0
  | c :: data' => byte_value c + 256 * from_bytes data'
  end.

Definition len {A : Type} (l : list A) : Z := Z.of_nat (length l).

(** ** The NumPy operations used by the module *)

(** A scalar as the interpreter sees it: a Python [int], or a NumPy integer
    scalar such as [np.int32], which is what an integer array yields when it
    is iterated over or indexed. *)
Inductive scalar : Type :=
| PyInt (z : Z)
| NpInt (z : Z).

Definition scalar_value (v : scalar) : Z :=
  match v with
  | PyInt z => z
  | NpInt z => z
  end.

(** The binary operators that the module applies to scalars. *)
Inductive binop : Type := LShift | And | Or.

(** The behaviours of NumPy that differ between its versions are kept as
    parameters of the embedding.

    - [empty_is_false]: whether an array without elements has the truth
      value [False].  Up to NumPy 2.1 it has (with a deprecation warning);
      from NumPy 2.2 on its truth value raises [ValueError].
    - [store_int32 v]: the value held by a cell of an [int32] array after
      [a[i] = v] for a Python integer [v].  A value in the [int32] range is
      stored as it is; outside of it NumPy 1.x wraps or raises and NumPy 2.x
      raises [OverflowError].
    - [np_binop op a b]: the value of [a << b], [a & b] or [a | b] when one
      operand at least is a NumPy scalar.  The result is a NumPy scalar
      again, or an exception. *)
Record numpy : Type := {
  empty_is_false : bool;
  store_int32 : Z -> result Z;
  np_binop : binop -> scalar -> scalar -> result Z
}.

Definition int32_min : Z := - 2 ^ 31.
Definition int32_max : Z := 2 ^ 31 - 1.

Definition fits_int32 (v : Z) : Prop := int32_min <= v <= int32_max.

(** What holds of [store_int32] in every version. *)
Record numpy_ok (np : numpy) : Prop := {
  store_fits : forall v, fits_int32 v -> store_int32 np v = Ok v;
  store_is_int32 : forall v w, store_int32 np v = Ok w -> fits_int32 w
}.

(** Assignment as NumPy 2.x does it. *)
Definition store_int32_strict (v : Z) : result Z :=
  if (int32_min <=? v) && (v <=? int32_max) then Ok v
  else Err (OverflowError out_of_bounds_int32).

(** Arithmetic on [int32] scalars as NumPy 2.x does it: a Python [int]
    operand is converted to [int32], which raises [OverflowError] when it is
    out of bounds; the result is an [int32]; a shift by 32 bits or more, or
    by a negative count, gives 0. *)
Definition wrap_int32 (z : Z) : Z := (z - int32_min) mod 2 ^ 32 + int32_min.

Definition as_int32 (a : scalar) : result Z :=
  match a with
  | NpInt z => Ok z
  | PyInt z =>
      if (int32_min <=? z) && (z <=? int32_max) then Ok z
      else Err (OverflowError out_of_bounds_int32)
  end.

Definition int32_binop (op : binop) (a b : scalar) : result Z :=
  x <- as_int32 a ;;
  y <- as_int32 b ;;
  Ok (match op with
      | LShift => if (0 <=? y) && (y <? 32) then wrap_int32 (Z.shiftl x y) else 0
      | And => Z.land x y
      | Or => Z.lor x y
      end).

(** NumPy 2.0 and 2.1. *)
Definition numpy_2_1 : numpy :=
  {| empty_is_false := true;
     store_int32 := store_int32_strict;
     np_binop := int32_binop |}.

(** NumPy 2.2 and later. *)
Definition numpy_2_2 : numpy :=
  {| empty_is_false := false;
     store_int32 := store_int32_strict;
     np_binop := int32_binop |}.

(** A one-dimensional array of an integer dtype, given by its elements: the
    register arrays.  The first test of [pack_registers]
    ([isinstance(registers, np.ndarray)] with an integer dtype) accepts
    them; it also lets through integer arrays of no or of several
    dimensions, which are no register arrays and are not embedded. *)
Definition ndarray : Type := list Z.

(** [bool(a)], which [not a] evaluates: the truth value of the single
    element of a one-element array, an error for two elements or more. *)
Definition ndarray_bool (np : numpy) (a : ndarray) : result bool :=
  match a with
  | [] => if empty_is_false np then Ok false
          else Err (ValueError truth_value_ambiguous)
  | [x] => Ok (negb (x =? 0))
  | _ :: _ :: _ => Err (ValueError truth_value_ambiguous)
  end.

(** [isinstance(v, int)]: no NumPy integer type derives from [int]. *)
Definition isinstance_int (v : scalar) : bool :=
  match v with
  | PyInt _ => true
  | NpInt _ => false
  end.

(** Iterating over an integer array yields NumPy scalars. *)
Definition ndarray_iter (a : ndarray) : list scalar := map NpInt a.

(** ** Dense codec *)

(** Lines 37-46 of [pack_registers]: the checks made on one register. *)
Definition check_register (max_val : Z) (i : nat) (val : scalar) : result unit :=
  if negb (isinstance_int val) then Err (ValueError (register_not_int i))
  else if scalar_value val <? 0 then Err (ValueError (register_negative i))
  else if max_val <? scalar_value val then Err (ValueError (register_exceeds_limit i))
  else Ok tt.

(** Lines 55-57: [bitstream |= (val & ((1 << binbits) - 1)) << (i * binbits)]. *)
Fixpoint pack_loop (binbits : Z) (bitstream : Z) (i : nat) (vals : list scalar) : Z :=
  match vals with
  | [] => bitstream
  | val :: vals' =>
      pack_loop binbits
        (Z.lor bitstream
           (Z.shiftl (Z.land (scalar_value val) (Z.shiftl 1 binbits - 1))
                     (Z.of_nat i * binbits)))
        (S i) vals'
  end.

(** Lines 34-60, on the values [vals] that iterating over [registers]
    yields; [len(registers)] is the number of these values. *)
Definition pack_body (binbits : Z) (vals : list scalar) : result bytes :=
  let max_val := Z.shiftl 1 binbits - 1 in
  for_each (check_register max_val) 0 vals ;;;
  let total_bits := len vals * binbits in
  if 2 ^ 20 <? total_bits then Err (OverflowError total_bits_too_large)
  else
    let m := len vals in
    let bitstream := pack_loop binbits 0 0 vals in
    let needed_bytes := (m * binbits + 7) / 8 in
    to_bytes bitstream needed_bytes.

Definition pack_registers (np : numpy) (registers : ndarray) (binbits : Z)
  : result bytes :=
  if binbits <=? 0 then Err (ValueError binbits_not_positive)
  else if 64 <? binbits then Err (ValueError binbits_too_large)
  else
    truth <- ndarray_bool np registers ;;
    if negb truth then Ok []
    else pack_body binbits (ndarray_iter registers).

(** Lines 106-108: the value assigned to [regs[i]]. *)
Definition unpack_cell (np : numpy) (bitstream mask binbits : Z) (i : Z) : result Z :=
  let shift := i * binbits in
  store_int32 np (Z.land (Z.shiftr bitstream shift) mask).

Definition unpack_registers (np : numpy) (data : bytes) (m binbits : Z)
  : result (list Z) :=
  if m <? 0 then Err (ValueError m_negative)
  else if binbits <=? 0 then Err (ValueError binbits_not_positive)
  else if 64 <? binbits then Err (ValueError binbits_too_large)
  else if m =? 0 then Ok []
  else
    let required_bits := m * binbits in
    let required_bytes := (required_bits + 7) / 8 in
    if len data <? required_bytes then Err (ValueError insufficient_data)
    else if 2 ^ 20 <? required_bits then Err (OverflowError total_bits_too_large)
    else
      let bitstream := from_bytes data in
      let mask := Z.shiftl 1 binbits - 1 in
      for_fill (unpack_cell np bitstream mask binbits) (range m).

(** ** Sparse codec *)

(** The values of an entry [(idx, rho)]. *)
Definition entry : Type := (Z * Z)%type.

(** What [sparse_registers] yields when it is iterated over: pairs of
    scalars.  The function tests nothing about its argument.  An [int32]
    array of shape [(n, 2)], the declared argument, yields pairs of NumPy
    scalars; a Python sequence of pairs of [int] ("list of (idx, rho)" in
    the docstring) yields pairs of Python integers. *)
Definition int32_rows (es : list entry) : list (scalar * scalar) :=
  map (fun e => (NpInt (fst e), NpInt (snd e))) es.

Definition py_entries (es : list entry) : list (scalar * scalar) :=
  map (fun e => (PyInt (fst e), PyInt (snd e))) es.

(** [x << y], [x & y] and [x | y] on Python integers. *)
Definition py_binop (op : binop) (x y : Z) : result Z :=
  match op with
  | LShift => py_lshift x y
  | And => Ok (Z.land x y)
  | Or => Ok (Z.lor x y)
  end.

(** A binary operator on scalars: Python's own on two [int], NumPy's as soon
    as an operand is a NumPy scalar. *)
Definition scalar_binop (np : numpy) (op : binop) (a b : scalar) : result scalar :=
  match a, b with
  | PyInt x, PyInt y => z <- py_binop op x y ;; Ok (PyInt z)
  | _, _ => z <- np_binop np op a b ;; Ok (NpInt z)
  end.

(** [x.to_bytes(length, byteorder='little')], a method of [int] that a
    NumPy scalar does not have. *)
Definition scalar_to_bytes (x : scalar) (length : Z) : result bytes :=
  match x with
  | PyInt z => to_bytes z length
  | NpInt _ => Err AttributeError
  end.

(** Lines 127-129: one turn of the loop on the state
    [(bitstream, total_bits)]. *)
Definition compress_step (np : numpy) (b rbits : Z) (st : scalar * Z)
           (e : scalar * scalar) : result (scalar * Z) :=
  let '(bitstream, total_bits) := st in
  let '(idx, rho) := e in
  let entrybits := b + rbits in
  hi <- scalar_binop np LShift idx (PyInt rbits) ;;
  one <- py_lshift 1 rbits ;;
  lo <- scalar_binop np And rho (PyInt (one - 1)) ;;
  entry <- scalar_binop np Or hi lo ;;
  shifted <- scalar_binop np LShift entry (PyInt total_bits) ;;
  bitstream' <- scalar_binop np Or bitstream shifted ;;
  Ok (bitstream', total_bits + entrybits).

Fixpoint compress_loop (np : numpy) (b rbits : Z) (st : scalar * Z)
         (es : list (scalar * scalar)) : result (scalar * Z) :=
  match es with
  | [] => Ok st
  | e :: es' => st' <- compress_step np b rbits st e ;; compress_loop np b rbits st' es'
  end.

Definition compress_sparse_registers (np : numpy)
           (sparse_registers : list (scalar * scalar)) (b rbits : Z) : result bytes :=
  st <- compress_loop np b rbits (PyInt 0, 0) sparse_registers ;;
  let '(bitstream, total_bits) := st in
  let num_bytes := (total_bits + 7) / 8 in
  scalar_to_bytes bitstream num_bytes.

(** The same loop written on Python integers alone; on [py_entries] the
    encoder is this function (lemma [compress_py_entries]). *)
Definition int_compress_step (b rbits : Z) (st : Z * Z) (e : entry) : result (Z * Z) :=
  let '(bitstream, total_bits) := st in
  let '(idx, rho) := e in
  let entrybits := b + rbits in
  hi <- py_lshift idx rbits ;;
  one <- py_lshift 1 rbits ;;
  let entry := Z.lor hi (Z.land rho (one - 1)) in
  shifted <- py_lshift entry total_bits ;;
  Ok (Z.lor bitstream shifted, total_bits + entrybits).

Fixpoint int_compress_loop (b rbits : Z) (st : Z * Z) (es : list entry) : result (Z * Z) :=
  match es with
  | [] => Ok st
  | e :: es' => st' <- int_compress_step b rbits st e ;; int_compress_loop b rbits st' es'
  end.

Definition compress_ints (sparse_registers : list entry) (b rbits : Z)
  : result bytes :=
  st <- int_compress_loop b rbits (0, 0) sparse_registers ;;
  let '(bitstream, total_bits) := st in
  let num_bytes := (total_bits + 7) / 8 in
  to_bytes bitstream num_bytes.

(** [np.empty((num_entries, 2), dtype=np.int32)]. *)
Definition np_empty_rows (num_entries : Z) : result unit :=
  if num_entries <? 0 then Err (ValueError negative_dimensions) else Ok tt.

(** Lines 155-160: the row assigned at index [i]. *)
Definition decompress_row (np : numpy) (bitstream entrybits mask rbits rhomask : Z) (i : Z)
  : result entry :=
  let shift := i * entrybits in
  shifted <- py_rshift bitstream shift ;;
  let entry := Z.land shifted mask in
  idx <- py_rshift entry rbits ;;
  let rho := Z.land entry rhomask in
  idx' <- store_int32 np idx ;;
  rho' <- store_int32 np rho ;;
  Ok (idx', rho').

Definition decompress_sparse_registers (np : numpy) (data : bytes) (b rbits : Z)
  : result (list entry) :=
  let bitstream := from_bytes data in
  let entrybits := b + rbits in
  let total_bits := len data * 8 in
  num_entries <- py_floordiv total_bits entrybits ;;
  np_empty_rows num_entries ;;;
  one_e <- py_lshift 1 entrybits ;;
  let mask := one_e - 1 in
  one_r <- py_lshift 1 rbits ;;
  let rhomask := one_r - 1 in
  for_fill (decompress_row np bitstream entrybits mask rbits rhomask) (range num_entries).

(** The row read at index [i] from the accumulator [V], with the masks that
    [decompress_sparse_registers] computes. *)
Definition sparse_row (np : numpy) (b rbits V : Z) (i : Z) : result entry :=
  decompress_row np V (b + rbits) (Z.shiftl 1 (b + rbits) - 1) rbits
    (Z.shiftl 1 rbits - 1) i.

(** The composite field of an entry, as line 127 forms it. *)
Definition entry_field (rbits : Z) (e : entry) : Z :=
  Z.lor (Z.shiftl (fst e) rbits) (Z.land (snd e) (Z.shiftl 1 rbits - 1)).

(** The accumulator after the fields [fs] have been or-ed in at the offsets
    [0], [entrybits], [2 * entrybits], ... *)
Fixpoint lor_fields (entrybits : Z) (fs : list Z) : Z :=
  match fs with
  | [] => 0
  | f :: fs' => Z.lor f (Z.shiftl (lor_fields entrybits fs') entrybits)
  end.

Definition sparse_bitstream (es : list entry) (b rbits : Z) : Z :=
  lor_fields (b + rbits) (map (entry_field rbits) es).

(** The byte count of the compressed form of [n] entries. *)
Definition sparse_bytes (n b rbits : Z) : Z := (n * (b + rbits) + 7) / 8.

(** The number of entries the decoder reads from that many bytes. *)
Definition sparse_slots (n b rbits : Z) : Z := 8 * sparse_bytes n b rbits / (b + rbits).

(** An entry whose index and rho fit their fields. *)
Definition in_range (b rbits : Z) (e : entry) : Prop :=
  0 <= fst e < 2 ^ b /\ 0 <= snd e < 2 ^ rbits.

(** An entry that an [int32] array can hold. *)
Definition entry_fits_int32 (e : entry) : Prop :=
  fits_int32 (fst e) /\ fits_int32 (snd e).

(** The exception class of a failed call. *)
Definition raises_ValueError {A : Type} (r : result A) : Prop :=
  exists why, r = Err (ValueError why).

Definition raises_OverflowError {A : Type} (r : result A) : Prop :=
  exists why, r = Err (OverflowError why).

(** ** Concrete runs *)

Example pack_zero_run : pack_registers numpy_2_2 [0] 4 = Ok [].
Proof. reflexivity. Qed.

Example pack_one_run : pack_registers numpy_2_2 [1] 4 = Err (ValueError (register_not_int 0)).
Proof. reflexivity. Qed.

Example unpack_run : unpack_registers numpy_2_2 [x21; x03] 3 4 = Ok [1; 2; 3].
Proof. vm_compute. reflexivity. Qed.

Example compress_run :
  compress_sparse_registers numpy_2_2 (py_entries [(0, 5); (1, 10)]) 4 6 =
  Ok [x05; x28; x01].
Proof. vm_compute. reflexivity. Qed.

Example compress_array_run :
  compress_sparse_registers numpy_2_2 (int32_rows [(0, 5); (1, 10)]) 4 6 =
  Err AttributeError.
Proof. vm_compute. reflexivity. Qed.

Example decompress_run :
  decompress_sparse_registers numpy_2_2 [x05; x28; x01] 4 6 = Ok [(0, 5); (1, 10)].
Proof. vm_compute. reflexivity. Qed.

Example pack_body_run : pack_body 4 [PyInt 1; PyInt 2; PyInt 3] = Ok [x21; x03].
Proof. vm_compute. reflexivity. Qed.

(** ** The validation prefix of the dense codec *)

Ltac valid_binbits :=
  match goal with
  | |- context [?b <=? 0] =>
      destruct (Z.leb_spec b 0); [lia |];
      destruct (Z.ltb_spec 64 b); [lia |]
  end.

Section Dense.

Variable np : numpy.
Variable binbits : Z.
Hypothesis binbits_valid : 1 <= binbits <= 64.

Lemma pack_registers_gate (registers : ndarray) :
  pack_registers np registers binbits =
  truth <- ndarray_bool np registers ;;
  if negb truth then Ok [] else pack_body binbits (ndarray_iter registers).
Proof. unfold pack_registers. valid_binbits. reflexivity. Qed.

(** A single zero register is taken for an empty array. *)
Lemma pack_registers_zero : pack_registers np [0] binbits = Ok [].
Proof. rewrite pack_registers_gate. reflexivity. Qed.

(** A single non-zero register reaches the loop, whose first test rejects the
    NumPy scalar. *)
Lemma pack_registers_nonzero (x : Z) :
  x <> 0 -> pack_registers np [x] binbits = Err (ValueError (register_not_int 0)).
Proof.
  intros Hx. rewrite pack_registers_gate. simpl.
  destruct (Z.eqb_spec x 0); [contradiction | reflexivity].
Qed.

(** Two registers or more have no truth value. *)
Lemma pack_registers_several (registers : ndarray) :
  (2 <= length registers)%nat ->
  pack_registers np registers binbits = Err (ValueError truth_value_ambiguous).
Proof.
  intros Hlen. rewrite pack_registers_gate.
  destruct registers as [| x [| y rest]]; simpl in Hlen; try lia.
  reflexivity.
Qed.

Lemma ceil_bytes_pos (n : Z) : 1 <= n -> 1 <= (n * binbits + 7) / 8.
Proof.
  intros Hn. apply Z.div_le_lower_bound; nia.
Qed.

(** With [m > 0] and no data, [unpack_registers] stops at the length test. *)
Lemma unpack_registers_no_data (m : Z) :
  1 <= m -> unpack_registers np [] m binbits = Err (ValueError insufficient_data).
Proof.
  intros Hm. unfold unpack_registers.
  destruct (Z.ltb_spec m 0); [lia |]. valid_binbits.
  destruct (Z.eqb_spec m 0); [lia |].
  pose proof (ceil_bytes_pos m Hm) as Hc.
  change (len (@nil byte)) with 0.
  destruct (Z.ltb_spec 0 ((m * binbits + 7) / 8)); [reflexivity | lia].
Qed.

Lemma unpack_registers_zero (data : bytes) : unpack_registers np data 0 binbits = Ok [].
Proof. unfold unpack_registers. simpl (0 <? 0). valid_binbits. reflexivity. Qed.

End Dense.

(** Outside of [1, 64] the width is rejected first. *)
Lemma pack_registers_bad_binbits (np : numpy) (registers : ndarray) (binbits : Z) :
  binbits < 1 \/ 64 < binbits -> raises_ValueError (pack_registers np registers binbits).
Proof.
  intros H. unfold pack_registers, raises_ValueError.
  destruct (Z.leb_spec binbits 0); [eauto |].
  destruct (Z.ltb_spec 64 binbits); [eauto | lia].
Qed.

(** [pack_registers] returns for an array of a single zero and, where the
    empty array is false, for the empty array; every other call raises. *)
Lemma pack_registers_returns (np : numpy) (registers : ndarray) (binbits : Z) (d : bytes) :
  pack_registers np registers binbits = Ok d ->
  1 <= binbits <= 64 /\ d = [] /\ (registers = [] \/ registers = [0]).
Proof.
  intros H.
  assert (Hb : 1 <= binbits <= 64).
  { destruct (Z_le_gt_dec 1 binbits) as [H1 | H1];
      [destruct (Z_le_gt_dec binbits 64) as [H2 | H2]; [lia |] |].
    all: destruct (pack_registers_bad_binbits np registers binbits) as [why Hw];
      [lia | congruence]. }
  split; [exact Hb |].
  destruct registers as [| x [| y rest]].
  - rewrite pack_registers_gate in H by exact Hb. simpl in H.
    destruct (empty_is_false np); simpl in H; try discriminate.
    inversion H. auto.
  - destruct (Z.eq_dec x 0) as [-> | Hx].
    + rewrite pack_registers_zero in H by exact Hb. inversion H. auto.
    + rewrite pack_registers_nonzero in H by assumption. discriminate.
  - rewrite pack_registers_several in H by (simpl; assumption || lia). discriminate.
Qed.

(** No array with at least one register survives the round trip. *)
Lemma dense_round_trip_never (np : numpy) (registers : ndarray) (binbits : Z) (d : bytes) :
  registers <> [] ->
  pack_registers np registers binbits = Ok d ->
  unpack_registers np d (len registers) binbits <> Ok registers.
Proof.
  intros Hne Hp.
  destruct (pack_registers_returns _ _ _ _ Hp) as (Hb & -> & [-> | ->]);
    [contradiction |].
  change (len [0]) with 1.
  rewrite unpack_registers_no_data by lia. discriminate.
Qed.

(** The capacity test of [pack_registers] is never reached: an array over
    the ceiling has two registers or more. *)
Lemma pack_registers_over_capacity (np : numpy) (registers : ndarray) (binbits : Z) :
  1 <= binbits <= 64 ->
  2 ^ 20 < len registers * binbits ->
  pack_registers np registers binbits = Err (ValueError truth_value_ambiguous).
Proof.
  intros Hb Hcap. apply pack_registers_several; [exact Hb |].
  unfold len in Hcap.
  assert (2 ^ 20 = 1048576) as E by reflexivity. rewrite E in Hcap. nia.
Qed.

(** ** Bytes and little-endian integers *)

Lemma byte_value_range (c : byte) : 0 <= byte_value c < 256.
Proof.
  unfold byte_value. pose proof (Byte.to_N_bounded c) as H. lia.
Qed.

Lemma byte_value_of_Z (z : Z) : 0 <= z < 256 -> byte_value (byte_of_Z z) = z.
Proof.
  intros Hz. unfold byte_value, byte_of_Z.
  destruct (Byte.of_N (Z.to_N z)) as [c |] eqn:E.
  - apply Byte.to_of_N in E. rewrite E. lia.
  - apply Byte.of_N_None_iff in E. lia.
Qed.

Lemma le_bytes_length (n : nat) (x : Z) : length (le_bytes n x) = n.
Proof.
  revert x. induction n as [| n IH]; intros x; simpl; [reflexivity |].
  now rewrite IH.
Qed.

Lemma from_bytes_le_bytes (n : nat) (x : Z) :
  0 <= x -> from_bytes (le_bytes n x) = x mod 2 ^ (8 * Z.of_nat n).
Proof.
  revert x. induction n as [| n IH]; intros x Hx.
  - simpl. now rewrite Z.mod_1_r.
  - cbn [le_bytes from_bytes].
    rewrite byte_value_of_Z by (apply Z.mod_pos_bound; lia).
    rewrite IH by (apply Z.div_pos; lia).
    replace (8 * Z.of_nat (S n)) with (8 + 8 * Z.of_nat n) by lia.
    rewrite Z.pow_add_r by lia.
    change (2 ^ 8) with 256.
    rewrite Z.rem_mul_r by (try apply Z.pow_nonzero; lia || (apply Z.pow_pos_nonneg; lia)).
    reflexivity.
Qed.

Lemma from_bytes_nonneg (data : bytes) : 0 <= from_bytes data.
Proof.
  induction data as [| c data IH]; cbn [from_bytes]; [lia |].
  pose proof (byte_value_range c). lia.
Qed.

(** [to_bytes] succeeds exactly on the values that fit, and [from_bytes]
    reads them back. *)
Lemma to_bytes_fits (x length : Z) :
  0 <= length -> 0 <= x < 2 ^ (8 * length) ->
  to_bytes x length = Ok (le_bytes (Z.to_nat length) x).
Proof.
  intros Hl Hx. unfold to_bytes.
  destruct (Z.ltb_spec length 0); [lia |].
  destruct (Z.ltb_spec x 0); [lia |].
  destruct (Z.leb_spec (2 ^ (8 * length)) x); [lia | reflexivity].
Qed.

Lemma to_bytes_overflows (x length : Z) :
  0 <= length -> ~ (0 <= x < 2 ^ (8 * length)) ->
  raises_OverflowError (to_bytes x length).
Proof.
  intros Hl Hx. unfold to_bytes, raises_OverflowError.
  destruct (Z.ltb_spec length 0); [lia |].
  destruct (Z.ltb_spec x 0); [eauto |].
  destruct (Z.leb_spec (2 ^ (8 * length)) x); [eauto | lia].
Qed.

Lemma from_bytes_to_bytes (x length : Z) (data : bytes) :
  to_bytes x length = Ok data -> from_bytes data = x /\ len data = length.
Proof.
  unfold to_bytes.
  destruct (Z.ltb_spec length 0); [discriminate |].
  destruct (Z.ltb_spec x 0); [discriminate |].
  destruct (Z.leb_spec (2 ^ (8 * length)) x); [discriminate |].
  intros E. inversion E; subst data. split.
  - rewrite from_bytes_le_bytes by lia.
    rewrite Z2Nat.id by lia. apply Z.mod_small. lia.
  - unfold len. rewrite le_bytes_length. lia.
Qed.

(** ** The sparse encoder in closed form *)

Lemma len_cons {A : Type} (x : A) (l : list A) : len (x :: l) = 1 + len l.
Proof. unfold len. cbn [length]. lia. Qed.

Lemma len_nonneg {A : Type} (l : list A) : 0 <= len l.
Proof. unfold len. lia. Qed.

Lemma len_app {A : Type} (l l' : list A) : len (l ++ l') = len l + len l'.
Proof. unfold len. rewrite length_app. lia. Qed.

Section SparseEncoder.

Variables b rbits : Z.
Hypothesis b_nonneg : 0 <= b.
Hypothesis rbits_nonneg : 0 <= rbits.

Lemma int_compress_step_ok (bitstream total_bits : Z) (e : entry) :
  0 <= total_bits ->
  int_compress_step b rbits (bitstream, total_bits) e =
  Ok (Z.lor bitstream (Z.shiftl (entry_field rbits e) total_bits),
      total_bits + (b + rbits)).
Proof.
  intros Ht. destruct e as [idx rho].
  unfold int_compress_step, py_lshift, entry_field.
  destruct (Z.ltb_spec rbits 0); [lia |].
  destruct (Z.ltb_spec total_bits 0); [lia |].
  reflexivity.
Qed.

Lemma int_compress_loop_ok (es : list entry) :
  forall bitstream total_bits,
    0 <= total_bits ->
    int_compress_loop b rbits (bitstream, total_bits) es =
    Ok (Z.lor bitstream (Z.shiftl (sparse_bitstream es b rbits) total_bits),
        total_bits + len es * (b + rbits)).
Proof.
  unfold sparse_bitstream.
  induction es as [| e es IH]; intros bitstream total_bits Ht.
  - cbn. rewrite Z.shiftl_0_l, Z.lor_0_r. f_equal. f_equal. unfold len. simpl. lia.
  - cbn [int_compress_loop map lor_fields].
    rewrite int_compress_step_ok by exact Ht. cbn [bind].
    rewrite IH by lia. f_equal. f_equal.
    + rewrite Z.shiftl_lor, Z.shiftl_shiftl by lia.
      rewrite Z.lor_assoc. f_equal. f_equal. lia.
    + rewrite len_cons. lia.
Qed.

(** The encoder makes no test of its own: it fails where [to_bytes] does. *)
Lemma compress_ints_closed (es : list entry) :
  compress_ints es b rbits =
  to_bytes (sparse_bitstream es b rbits) (sparse_bytes (len es) b rbits).
Proof.
  unfold compress_ints.
  rewrite int_compress_loop_ok by lia. cbn [bind].
  rewrite Z.shiftl_0_r, Z.lor_0_l. reflexivity.
Qed.

Lemma sparse_bytes_nonneg (n : Z) : 0 <= n -> 0 <= sparse_bytes n b rbits.
Proof.
  intros Hn. unfold sparse_bytes. apply Z.div_pos; nia.
Qed.

End SparseEncoder.

(** On pairs of Python integers the encoder is the loop on integers. *)
Lemma compress_loop_py_entries (np : numpy) (b rbits : Z) (es : list entry) :
  forall bitstream total_bits,
    compress_loop np b rbits (PyInt bitstream, total_bits) (py_entries es) =
    st <- int_compress_loop b rbits (bitstream, total_bits) es ;;
    Ok (PyInt (fst st), snd st).
Proof.
  induction es as [| [idx rho] es IH]; intros bitstream total_bits;
    cbn [py_entries map compress_loop int_compress_loop bind fst snd]; [reflexivity |].
  unfold compress_step, int_compress_step, scalar_binop, py_binop.
  destruct (py_lshift idx rbits) as [hi | e]; cbn [bind]; [| reflexivity].
  destruct (py_lshift 1 rbits) as [one | e]; cbn [bind]; [| reflexivity].
  destruct (py_lshift _ total_bits) as [shifted | e]; cbn [bind]; [| reflexivity].
  apply IH.
Qed.

Lemma compress_py_entries (np : numpy) (b rbits : Z) (es : list entry) :
  compress_sparse_registers np (py_entries es) b rbits = compress_ints es b rbits.
Proof.
  unfold compress_sparse_registers, compress_ints.
  rewrite compress_loop_py_entries.
  destruct (int_compress_loop b rbits (0, 0) es) as [[bitstream total_bits] | e];
    reflexivity.
Qed.

(** ** Loops over [range] *)

Lemma for_fill_ext_in {A B : Type} (f g : A -> result B) (l : list A) :
  (forall x, In x l -> f x = g x) -> for_fill f l = for_fill g l.
Proof.
  induction l as [| x l IH]; intros H; cbn [for_fill]; [reflexivity |].
  rewrite (H x) by (left; reflexivity).
  rewrite IH by (intros y Hy; apply H; right; exact Hy).
  reflexivity.
Qed.

Lemma for_fill_map {A B C : Type} (f : B -> result C) (h : A -> B) (l : list A) :
  for_fill f (map h l) = for_fill (fun x => f (h x)) l.
Proof.
  induction l as [| x l IH]; cbn [for_fill map]; [reflexivity |].
  now rewrite IH.
Qed.

Lemma for_fill_length {A B : Type} (f : A -> result B) (l : list A) (ys : list B) :
  for_fill f l = Ok ys -> length ys = length l.
Proof.
  revert ys. induction l as [| x l IH]; intros ys; cbn [for_fill].
  - intros E. inversion E. reflexivity.
  - destruct (f x) as [y | e]; cbn [bind]; [| discriminate].
    destruct (for_fill f l) as [ys' | e]; cbn [bind]; [| discriminate].
    intros E. inversion E. cbn [length]. f_equal. apply IH. reflexivity.
Qed.

Lemma for_fill_total {A B : Type} (f : A -> result B) (l : list A) :
  (forall x, In x l -> exists y, f x = Ok y) -> exists ys, for_fill f l = Ok ys.
Proof.
  induction l as [| x l IH]; intros H; cbn [for_fill]; [eauto |].
  destruct (H x) as [y Hy]; [left; reflexivity |]. rewrite Hy. cbn [bind].
  destruct IH as [ys Hys]; [intros z Hz; apply H; right; exact Hz |].
  rewrite Hys. cbn [bind]. eauto.
Qed.

Lemma range_of_nat (k : nat) : range (Z.of_nat k) = map Z.of_nat (seq 0 k).
Proof. unfold range. now rewrite Nat2Z.id. Qed.

Lemma range_succ (k : nat) :
  range (Z.of_nat (S k)) = 0 :: map (fun i => i + 1) (range (Z.of_nat k)).
Proof.
  rewrite !range_of_nat. cbn [seq map]. f_equal.
  rewrite <- seq_shift, !map_map. apply map_ext. intros n. lia.
Qed.

Lemma range_nonneg (n i : Z) : In i (range n) -> 0 <= i < n.
Proof.
  unfold range. rewrite in_map_iff. intros (k & <- & Hk).
  apply in_seq in Hk. lia.
Qed.

Lemma range_length (n : Z) : 0 <= n -> len (range n) = n.
Proof.
  intros Hn. unfold len, range. rewrite length_map, length_seq. lia.
Qed.

(** ** Bit fields *)

Lemma mask_ones (n : Z) : Z.shiftl 1 n - 1 = Z.ones n.
Proof. unfold Z.ones. lia. Qed.

Lemma land_mask (a n : Z) : 0 <= n -> Z.land a (Z.shiftl 1 n - 1) = a mod 2 ^ n.
Proof. intros Hn. rewrite mask_ones. apply Z.land_ones. exact Hn. Qed.

Lemma land_low_shiftl (f a n : Z) :
  0 <= n -> 0 <= f < 2 ^ n -> Z.land f (Z.shiftl a n) = 0.
Proof.
  intros Hn Hf. apply Z.bits_inj'. intros k Hk.
  rewrite Z.land_spec, Z.bits_0.
  destruct (Z.lt_ge_cases k n) as [Hlt | Hge].
  - rewrite (Z.shiftl_spec_low a n k) by exact Hlt. apply andb_false_r.
  - rewrite <- (Z.mod_small f (2 ^ n)) by exact Hf.
    rewrite Z.mod_pow2_bits_high by lia. reflexivity.
Qed.

(** Or-ing a field below a shifted value adds them. *)
Lemma lor_low_shiftl (f a n : Z) :
  0 <= n -> 0 <= f < 2 ^ n -> Z.lor f (Z.shiftl a n) = f + a * 2 ^ n.
Proof.
  intros Hn Hf.
  rewrite <- Z.lxor_lor by (apply land_low_shiftl; assumption).
  rewrite <- Z.add_nocarry_lxor by (apply land_low_shiftl; assumption).
  now rewrite Z.shiftl_mul_pow2.
Qed.

(** A value is its low [n] bits or-ed with the rest. *)
Lemma lor_split (a n : Z) :
  0 <= n -> a = Z.lor (a mod 2 ^ n) (Z.shiftl (a / 2 ^ n) n).
Proof.
  intros Hn.
  rewrite lor_low_shiftl by (try apply Z.mod_pos_bound; try apply Z.pow_pos_nonneg; lia).
  rewrite (Z.div_mod a (2 ^ n)) at 1 by (apply Z.pow_nonzero; lia). lia.
Qed.

(** ** The sparse codec on entries that fit their fields *)

Section SparseCodec.

Variable np : numpy.
Hypothesis np_ok : numpy_ok np.
Variables b rbits : Z.
Hypothesis b_nonneg : 0 <= b.
Hypothesis rbits_nonneg : 0 <= rbits.

Local Abbreviation row V := (sparse_row np b rbits V).

Lemma entry_field_in_range (e : entry) :
  in_range b rbits e ->
  entry_field rbits e = snd e + fst e * 2 ^ rbits /\
  0 <= entry_field rbits e < 2 ^ (b + rbits).
Proof.
  intros [Hi Hr]. unfold entry_field.
  rewrite land_mask, Z.mod_small by lia.
  rewrite Z.lor_comm, lor_low_shiftl by lia.
  split; [reflexivity |].
  rewrite Z.pow_add_r by lia. nia.
Qed.

Lemma sparse_bitstream_cons (e : entry) (es : list entry) :
  in_range b rbits e ->
  sparse_bitstream (e :: es) b rbits =
  entry_field rbits e + sparse_bitstream es b rbits * 2 ^ (b + rbits).
Proof.
  intros He. unfold sparse_bitstream. cbn [map lor_fields].
  apply lor_low_shiftl; [lia |]. apply entry_field_in_range. exact He.
Qed.

Lemma sparse_bitstream_bound (es : list entry) :
  Forall (in_range b rbits) es ->
  0 <= sparse_bitstream es b rbits < 2 ^ (len es * (b + rbits)).
Proof.
  induction 1 as [| e es He Hes IH].
  - unfold sparse_bitstream. cbn [map lor_fields].
    change (len (@nil entry)) with 0. rewrite Z.mul_0_l, Z.pow_0_r. lia.
  - rewrite sparse_bitstream_cons by exact He.
    destruct (entry_field_in_range e He) as [_ Hf].
    rewrite len_cons.
    replace ((1 + len es) * (b + rbits)) with (len es * (b + rbits) + (b + rbits)) by lia.
    pose proof (len_nonneg es).
    rewrite (Z.pow_add_r 2 (len es * (b + rbits)) (b + rbits)) by nia.
    assert (sparse_bitstream es b rbits * 2 ^ (b + rbits)
            <= (2 ^ (len es * (b + rbits)) - 1) * 2 ^ (b + rbits))
      by (apply Z.mul_le_mono_nonneg_r; lia).
    nia.
Qed.

(** In-range entries always compress, to [sparse_bytes] bytes that hold the
    accumulator. *)
Lemma compress_in_range (es : list entry) :
  Forall (in_range b rbits) es ->
  exists data,
    compress_ints es b rbits = Ok data /\
    from_bytes data = sparse_bitstream es b rbits /\
    len data = sparse_bytes (len es) b rbits.
Proof.
  intros Hes. rewrite compress_ints_closed by assumption.
  pose proof (sparse_bitstream_bound es Hes) as Hb.
  pose proof (len_nonneg es) as Hn.
  pose proof (sparse_bytes_nonneg b rbits b_nonneg rbits_nonneg (len es) Hn) as Hnb.
  assert (Hfit : 0 <= sparse_bitstream es b rbits < 2 ^ (8 * sparse_bytes (len es) b rbits)).
  { split; [lia |]. eapply Z.lt_le_trans; [apply Hb |].
    apply Z.pow_le_mono_r; [lia |]. unfold sparse_bytes.
    pose proof (Z.div_mod (len es * (b + rbits) + 7) 8 ltac:(lia)).
    pose proof (Z.mod_pos_bound (len es * (b + rbits) + 7) 8 ltac:(lia)). lia. }
  rewrite to_bytes_fits by assumption.
  eexists. split; [reflexivity |].
  apply from_bytes_to_bytes with (length := sparse_bytes (len es) b rbits).
  apply to_bytes_fits; assumption.
Qed.

Lemma row_shift (V i : Z) :
  0 <= i -> row V (i + 1) = row (Z.shiftr V (b + rbits)) i.
Proof.
  intros Hi. unfold sparse_row, decompress_row, py_rshift.
  destruct (Z.ltb_spec ((i + 1) * (b + rbits)) 0); [nia |].
  destruct (Z.ltb_spec (i * (b + rbits)) 0); [nia |].
  rewrite Z.shiftr_shiftr by nia.
  replace (b + rbits + i * (b + rbits)) with ((i + 1) * (b + rbits)) by lia.
  reflexivity.
Qed.

Lemma rows_succ (V : Z) (k : nat) :
  for_fill (row V) (range (Z.of_nat (S k))) =
  y <- row V 0 ;;
  ys <- for_fill (row (Z.shiftr V (b + rbits))) (range (Z.of_nat k)) ;;
  Ok (y :: ys).
Proof.
  rewrite range_succ. cbn [for_fill]. rewrite for_fill_map.
  rewrite (for_fill_ext_in _ (row (Z.shiftr V (b + rbits)))); [reflexivity |].
  intros i Hi. apply row_shift. apply range_nonneg in Hi. lia.
Qed.

(** The row read at offset 0 of an accumulator that starts with the field of
    an in-range entry. *)
Lemma row_first (e : entry) (V' : Z) :
  in_range b rbits e -> entry_fits_int32 e ->
  row (entry_field rbits e + V' * 2 ^ (b + rbits)) 0 = Ok e.
Proof.
  intros He [Hfi Hfr].
  destruct (entry_field_in_range e He) as [Ef Hf].
  destruct He as [Hi Hr].
  unfold sparse_row, decompress_row, py_rshift.
  rewrite Z.mul_0_l. cbn [Z.ltb Z.compare bind].
  rewrite Z.shiftr_0_r, land_mask by lia.
  rewrite Z_mod_plus_full, Z.mod_small by lia.
  destruct (Z.ltb_spec rbits 0); [lia |]. cbn [bind].
  rewrite land_mask, Z.shiftr_div_pow2 by lia.
  rewrite Ef.
  rewrite Z.div_add, Z.div_small, Z.add_0_l by (try apply Z.pow_nonzero; lia).
  rewrite Z_mod_plus_full, Z.mod_small by lia.
  rewrite (store_fits np np_ok) by exact Hfi. cbn [bind].
  rewrite (store_fits np np_ok) by exact Hfr. cbn [bind].
  destruct e; reflexivity.
Qed.

(** Beyond the last entry the accumulator is zero and every row is [(0, 0)]. *)
Lemma rows_zero (k : nat) :
  for_fill (row 0) (range (Z.of_nat k)) = Ok (repeat (0, 0) k).
Proof.
  induction k as [| k IH]; [reflexivity |].
  rewrite rows_succ, Z.shiftr_0_l, IH.
  unfold sparse_row, decompress_row, py_rshift.
  rewrite Z.mul_0_l. cbn [Z.ltb Z.compare bind].
  rewrite Z.shiftr_0_l, Z.land_0_l.
  destruct (Z.ltb_spec rbits 0); [lia |]. cbn [bind].
  rewrite (store_fits np np_ok) by (unfold fits_int32, int32_min, int32_max; lia).
  reflexivity.
Qed.

Lemma rows_in_range (es : list entry) (k : nat) :
  Forall (in_range b rbits) es -> Forall entry_fits_int32 es ->
  for_fill (row (sparse_bitstream es b rbits)) (range (Z.of_nat (length es + k))) =
  Ok (es ++ repeat (0, 0) k).
Proof.
  intros Hes Hfit. induction Hes as [| e es He Hes IH].
  - apply rows_zero.
  - inversion Hfit as [| ? ? Hfe Hfes]; subst.
    cbn [length Nat.add app]. rewrite rows_succ.
    rewrite sparse_bitstream_cons by exact He.
    rewrite row_first by assumption. cbn [bind].
    destruct (entry_field_in_range e He) as [_ Hf].
    rewrite Z.shiftr_div_pow2 by lia.
    rewrite Z.div_add, Z.div_small, Z.add_0_l by (try apply Z.pow_nonzero; lia).
    rewrite IH by exact Hfes. reflexivity.
Qed.

End SparseCodec.

(** ** The sparse decoder *)

Section SparseDecoder.

Variable np : numpy.
Hypothesis np_ok : numpy_ok np.
Variables b rbits : Z.
Hypothesis b_nonneg : 0 <= b.
Hypothesis rbits_nonneg : 0 <= rbits.
Hypothesis entrybits_pos : 0 < b + rbits.

Lemma decompress_sparse_registers_closed (data : bytes) :
  decompress_sparse_registers np data b rbits =
  for_fill (sparse_row np b rbits (from_bytes data)) (range (len data * 8 / (b + rbits))).
Proof.
  unfold decompress_sparse_registers, py_floordiv, np_empty_rows, py_lshift.
  destruct (Z.eqb_spec (b + rbits) 0); [lia |]. cbn [bind].
  pose proof (len_nonneg data) as Hn.
  assert (0 <= len data * 8 / (b + rbits)) by (apply Z.div_pos; lia).
  destruct (Z.ltb_spec (len data * 8 / (b + rbits)) 0); [lia |]. cbn [bind].
  destruct (Z.ltb_spec (b + rbits) 0); [lia |]. cbn [bind].
  destruct (Z.ltb_spec rbits 0); [lia |]. cbn [bind].
  reflexivity.
Qed.

Lemma pow2_le_int32 (n : Z) : 0 <= n <= 31 -> 2 ^ n <= 2 ^ 31.
Proof. intros Hn. apply Z.pow_le_mono_r; lia. Qed.

(** With fields of at most 31 bits every row can be stored. *)
Lemma sparse_row_total (V i : Z) :
  b <= 31 -> rbits <= 31 -> 0 <= i ->
  exists e, sparse_row np b rbits V i = Ok e.
Proof.
  intros Hb Hr Hi. unfold sparse_row, decompress_row, py_rshift.
  destruct (Z.ltb_spec (i * (b + rbits)) 0); [nia |]. cbn [bind].
  destruct (Z.ltb_spec rbits 0); [lia |]. cbn [bind].
  rewrite !land_mask by lia.
  set (f := Z.shiftr V (i * (b + rbits)) mod 2 ^ (b + rbits)).
  assert (Hf : 0 <= f < 2 ^ (b + rbits))
    by (apply Z.mod_pos_bound; apply Z.pow_pos_nonneg; lia).
  assert (Hp : 0 < 2 ^ rbits) by (apply Z.pow_pos_nonneg; lia).
  rewrite Z.shiftr_div_pow2 by lia.
  assert (Hidx : 0 <= f / 2 ^ rbits < 2 ^ b).
  { split; [apply Z.div_pos; lia |].
    apply Z.div_lt_upper_bound; [lia |].
    rewrite <- Z.pow_add_r by lia. rewrite Z.add_comm. lia. }
  pose proof (Z.mod_pos_bound f (2 ^ rbits) Hp) as Hrho.
  pose proof (pow2_le_int32 b ltac:(lia)).
  pose proof (pow2_le_int32 rbits ltac:(lia)).
  rewrite (store_fits np np_ok) by (unfold fits_int32, int32_min, int32_max; lia).
  cbn [bind].
  rewrite (store_fits np np_ok) by (unfold fits_int32, int32_min, int32_max; lia).
  cbn [bind]. eauto.
Qed.

(** The number of rows is inferred from the number of bytes. *)
Lemma decompress_count (data : bytes) :
  b <= 31 -> rbits <= 31 ->
  exists rows,
    decompress_sparse_registers np data b rbits = Ok rows /\
    len rows = len data * 8 / (b + rbits).
Proof.
  intros Hb Hr. rewrite decompress_sparse_registers_closed.
  destruct (for_fill_total (sparse_row np b rbits (from_bytes data))
              (range (len data * 8 / (b + rbits)))) as [rows Hrows].
  { intros i Hi. apply range_nonneg in Hi. apply sparse_row_total; lia. }
  exists rows. split; [exact Hrows |].
  apply for_fill_length in Hrows. unfold len at 1. rewrite Hrows.
  apply range_length. apply Z.div_pos; [pose proof (len_nonneg data) |]; lia.
Qed.

Lemma sparse_slots_ge (n : Z) : 0 <= n -> n <= sparse_slots n b rbits.
Proof.
  intros Hn. unfold sparse_slots, sparse_bytes.
  apply Z.div_le_lower_bound; [lia |].
  pose proof (Z.div_mod (n * (b + rbits) + 7) 8 ltac:(lia)).
  pose proof (Z.mod_pos_bound (n * (b + rbits) + 7) 8 ltac:(lia)). lia.
Qed.

(** Decoding the compressed form of in-range entries gives them back,
    followed by one [(0, 0)] row for every whole slot of padding. *)
Lemma sparse_round_trip_padded (es : list entry) :
  Forall (in_range b rbits) es -> Forall entry_fits_int32 es ->
  exists data,
    compress_ints es b rbits = Ok data /\
    decompress_sparse_registers np data b rbits =
    Ok (es ++ repeat (0, 0) (Z.to_nat (sparse_slots (len es) b rbits - len es))).
Proof.
  intros Hes Hfit.
  destruct (compress_in_range b rbits b_nonneg rbits_nonneg es Hes)
    as (data & Hc & Hv & Hl).
  exists data. split; [exact Hc |].
  rewrite decompress_sparse_registers_closed, Hv, Hl.
  pose proof (sparse_slots_ge (len es) (len_nonneg es)) as Hge.
  replace (sparse_bytes (len es) b rbits * 8 / (b + rbits))
    with (Z.of_nat (length es
                    + Z.to_nat (sparse_slots (len es) b rbits - len es))).
  - apply rows_in_range; assumption.
  - unfold sparse_slots in *. rewrite (Z.mul_comm (sparse_bytes _ _ _) 8).
    unfold len in *. lia.
Qed.

(** Padding of a whole slot only occurs with fields of less than a byte. *)
Lemma extra_slot_small_fields (n : Z) :
  0 <= n -> sparse_slots n b rbits = n + 1 -> b + rbits <= 7.
Proof.
  intros Hn Hs. unfold sparse_slots, sparse_bytes in Hs.
  pose proof (Z.div_mod (n * (b + rbits) + 7) 8 ltac:(lia)).
  pose proof (Z.mod_pos_bound (n * (b + rbits) + 7) 8 ltac:(lia)).
  pose proof (Z.mul_div_le (8 * ((n * (b + rbits) + 7) / 8)) (b + rbits) ltac:(lia)) as Hd.
  rewrite Hs in Hd. nia.
Qed.

Lemma in_range_fits_int32 (e : entry) :
  b <= 31 -> rbits <= 31 -> in_range b rbits e -> entry_fits_int32 e.
Proof.
  intros Hb Hr [Hi Hrho].
  pose proof (pow2_le_int32 b ltac:(lia)).
  pose proof (pow2_le_int32 rbits ltac:(lia)).
  unfold entry_fits_int32, fits_int32, int32_min, int32_max. lia.
Qed.

End SparseDecoder.

(** ** Out-of-range entries in the sparse encoder *)

Section SparseOutOfRange.

Variables b rbits : Z.
Hypothesis b_nonneg : 0 <= b.
Hypothesis rbits_nonneg : 0 <= rbits.

(** Only the low [rbits] bits of rho enter the field. *)
Lemma entry_field_rho_mod (idx rho : Z) :
  entry_field rbits (idx, rho mod 2 ^ rbits) = entry_field rbits (idx, rho).
Proof.
  unfold entry_field. cbn [fst snd].
  rewrite !land_mask by lia. rewrite Z.mod_mod by (apply Z.pow_nonzero; lia).
  reflexivity.
Qed.

(** The bits of an index above bit [b] lie above the field. *)
Lemma entry_field_spill (idx rho : Z) :
  entry_field rbits (idx, rho) =
  Z.lor (entry_field rbits (idx mod 2 ^ b, rho)) (Z.shiftl (idx / 2 ^ b) (b + rbits)).
Proof.
  unfold entry_field. cbn [fst snd].
  pose proof (lor_split idx b b_nonneg) as E. rewrite E at 1.
  rewrite Z.shiftl_lor, Z.shiftl_shiftl by lia.
  apply Z.bits_inj'. intros n Hn. rewrite !Z.lor_spec.
  repeat match goal with
         | |- context [Z.testbit ?a n] => destruct (Z.testbit a n)
         end; reflexivity.
Qed.

(** Or-ing [k] into a field is or-ing it into its index and rho. *)
Lemma entry_field_lor (idx rho k : Z) :
  Z.lor (entry_field rbits (idx, rho)) k =
  entry_field rbits (Z.lor idx (Z.shiftr k rbits), Z.lor rho (k mod 2 ^ rbits)).
Proof.
  unfold entry_field. cbn [fst snd].
  rewrite Z.shiftl_lor, Z.land_lor_distr_l.
  rewrite (land_mask (k mod 2 ^ rbits)), Z.mod_mod by (try apply Z.pow_nonzero; lia).
  rewrite Z.shiftr_div_pow2 by lia.
  pose proof (lor_split k rbits rbits_nonneg) as E. rewrite E at 1.
  apply Z.bits_inj'. intros n Hn. rewrite !Z.lor_spec.
  repeat match goal with
         | |- context [Z.testbit ?a n] => destruct (Z.testbit a n)
         end; reflexivity.
Qed.

Lemma lor_fields_app_congr (pre fs fs' : list Z) :
  lor_fields (b + rbits) fs = lor_fields (b + rbits) fs' ->
  lor_fields (b + rbits) (pre ++ fs) = lor_fields (b + rbits) (pre ++ fs').
Proof.
  intros E. induction pre as [| f pre IH]; cbn [app lor_fields]; [exact E |].
  now rewrite IH.
Qed.

(** The accumulator does not tell an index with excess bits from the same
    bits or-ed into the entry that follows. *)
Lemma sparse_bitstream_spill (pre rest : list entry) (idx rho idx' rho' : Z) :
  sparse_bitstream (pre ++ (idx, rho) :: (idx', rho') :: rest) b rbits =
  sparse_bitstream
    (pre ++ (idx mod 2 ^ b, rho)
         :: (Z.lor idx' (Z.shiftr (idx / 2 ^ b) rbits),
             Z.lor rho' ((idx / 2 ^ b) mod 2 ^ rbits)) :: rest) b rbits.
Proof.
  unfold sparse_bitstream. rewrite !map_app. apply lor_fields_app_congr.
  cbn [map lor_fields].
  rewrite <- entry_field_lor, (entry_field_spill idx rho).
  rewrite !Z.shiftl_lor.
  apply Z.bits_inj'. intros n Hn. rewrite !Z.lor_spec.
  repeat match goal with
         | |- context [Z.testbit ?a n] => destruct (Z.testbit a n)
         end; reflexivity.
Qed.

Lemma sparse_bitstream_rho_mod (es : list entry) :
  sparse_bitstream (map (fun e => (fst e, snd e mod 2 ^ rbits)) es) b rbits =
  sparse_bitstream es b rbits.
Proof.
  unfold sparse_bitstream. rewrite map_map. f_equal.
  apply map_ext. intros [idx rho]. apply entry_field_rho_mod.
Qed.

End SparseOutOfRange.

(** ** NumPy 2.x *)

Lemma store_int32_strict_ok :
  (forall v, fits_int32 v -> store_int32_strict v = Ok v) /\
  (forall v w, store_int32_strict v = Ok w -> fits_int32 w).
Proof.
  unfold store_int32_strict, fits_int32. split.
  - intros v [Hlo Hhi].
    destruct (Z.leb_spec int32_min v); [| lia].
    destruct (Z.leb_spec v int32_max); [reflexivity | lia].
  - intros v w.
    destruct (Z.leb_spec int32_min v); cbn [andb]; [| discriminate].
    destruct (Z.leb_spec v int32_max); [| discriminate].
    intros E. inversion E. subst w. lia.
Qed.

Lemma numpy_2_1_ok : numpy_ok numpy_2_1.
Proof. split; apply store_int32_strict_ok. Qed.

Lemma numpy_2_2_ok : numpy_ok numpy_2_2.
Proof. split; apply store_int32_strict_ok. Qed.

(** The decoder of the dense codec on the bytes of the spec's vector. *)
Lemma unpack_registers_vector (np : numpy) :
  numpy_ok np -> unpack_registers np [x21; x03] 3 4 = Ok [1; 2; 3].
Proof.
  intros Hok.
  assert (H1 : store_int32 np 1 = Ok 1) by (apply (store_fits np Hok); vm_compute; split; discriminate).
  assert (H2 : store_int32 np 2 = Ok 2) by (apply (store_fits np Hok); vm_compute; split; discriminate).
  assert (H3 : store_int32 np 3 = Ok 3) by (apply (store_fits np Hok); vm_compute; split; discriminate).
  change (unpack_registers np [x21; x03] 3 4)
    with (for_fill (unpack_cell np 801 15 4) [0; 1; 2]).
  cbn [for_fill]. unfold unpack_cell.
  change (Z.land (Z.shiftr 801 (0 * 4)) 15) with 1.
  change (Z.land (Z.shiftr 801 (1 * 4)) 15) with 2.
  change (Z.land (Z.shiftr 801 (2 * 4)) 15) with 3.
  rewrite H1, H2, H3. reflexivity.
Qed.

(** ** The body of the dense encoder on Python integers *)

(** Lines 34-60 of [pack_registers] are never run on the registers of an
    array.  On Python integers they are the sparse encoder for entries
    [(val, 0)] with [b = binbits] and [rbits = 0], and [unpack_registers]
    reads the registers back. *)

Lemma for_fill_bind_map {A B C : Type}
      (f : A -> result C) (g : A -> result B) (h : B -> C) (l : list A) :
  (forall x, In x l -> f x = y <- g x ;; Ok (h y)) ->
  for_fill f l = ys <- for_fill g l ;; Ok (map h ys).
Proof.
  induction l as [| x l IH]; intros H; cbn [for_fill]; [reflexivity |].
  rewrite (H x) by (left; reflexivity).
  rewrite IH by (intros z Hz; apply H; right; exact Hz).
  destruct (g x) as [y | e]; cbn [bind]; [| reflexivity].
  destruct (for_fill g l) as [ys | e]; reflexivity.
Qed.

Section DenseBody.

Variable np : numpy.
Hypothesis np_ok : numpy_ok np.
Variable binbits : Z.
Hypothesis binbits_valid : 1 <= binbits <= 64.

Lemma pack_loop_closed (vals : list scalar) :
  forall bitstream i,
    pack_loop binbits bitstream i vals =
    Z.lor bitstream
      (Z.shiftl
         (lor_fields binbits
            (map (fun val => Z.land (scalar_value val) (Z.shiftl 1 binbits - 1)) vals))
         (Z.of_nat i * binbits)).
Proof.
  induction vals as [| val vals IH]; intros bitstream i; cbn [pack_loop map lor_fields].
  - now rewrite Z.shiftl_0_l, Z.lor_0_r.
  - rewrite IH, Z.shiftl_lor, Z.shiftl_shiftl, Z.lor_assoc by lia.
    f_equal. f_equal. lia.
Qed.

Lemma check_registers_pass (R : list Z) :
  Forall (fun v => 0 <= v < 2 ^ binbits) R ->
  forall i, for_each (check_register (Z.shiftl 1 binbits - 1)) i (map PyInt R) = Ok tt.
Proof.
  induction 1 as [| v R Hv HR IH]; intros i; cbn [map for_each]; [reflexivity |].
  rewrite IH. unfold check_register. cbn [isinstance_int negb scalar_value].
  rewrite Z.shiftl_1_l.
  destruct (Z.ltb_spec v 0); [lia |].
  destruct (Z.ltb_spec (2 ^ binbits - 1) v); [lia | reflexivity].
Qed.

Lemma dense_fields (R : list Z) :
  Forall (fun v => 0 <= v < 2 ^ binbits) R ->
  map (fun val => Z.land (scalar_value val) (Z.shiftl 1 binbits - 1)) (map PyInt R) =
  map (entry_field 0) (map (fun v => (v, 0)) R).
Proof.
  intros HR. rewrite !map_map. apply map_ext_in. intros v Hv.
  rewrite Forall_forall in HR. specialize (HR v Hv).
  unfold entry_field. cbn [scalar_value fst snd].
  rewrite land_mask, Z.mod_small by lia.
  now rewrite Z.shiftl_0_r, Z.land_0_l, Z.lor_0_r.
Qed.

Lemma pack_body_as_sparse (R : list Z) :
  Forall (fun v => 0 <= v < 2 ^ binbits) R ->
  len R * binbits <= 2 ^ 20 ->
  pack_body binbits (map PyInt R) =
  compress_ints (map (fun v => (v, 0)) R) binbits 0.
Proof.
  intros HR Hcap. unfold pack_body.
  rewrite check_registers_pass by exact HR. cbn [bind].
  assert (Hlen : len (map PyInt R) = len R) by (unfold len; now rewrite length_map).
  rewrite Hlen.
  destruct (Z.ltb_spec (2 ^ 20) (len R * binbits)); [lia |].
  rewrite compress_ints_closed by lia.
  rewrite pack_loop_closed, Z.lor_0_l, Z.mul_0_l, Z.shiftl_0_r.
  rewrite dense_fields by exact HR.
  unfold sparse_bitstream, sparse_bytes, len.
  now rewrite length_map, Z.add_0_r.
Qed.

Lemma unpack_cell_as_row (V i : Z) :
  0 <= i ->
  unpack_cell np V (Z.shiftl 1 binbits - 1) binbits i =
  e <- sparse_row np binbits 0 V i ;; Ok (fst e).
Proof.
  intros Hi. unfold unpack_cell, sparse_row, decompress_row, py_rshift.
  rewrite Z.add_0_r.
  destruct (Z.ltb_spec (i * binbits) 0); [nia |].
  cbn [Z.ltb Z.compare bind].
  rewrite Z.shiftr_0_r.
  change (Z.shiftl 1 0 - 1) with 0. rewrite Z.land_0_r.
  rewrite (store_fits np np_ok 0) by (unfold fits_int32, int32_min, int32_max; lia).
  destruct (store_int32 np _) as [w | e]; reflexivity.
Qed.

(** What the body packs, [unpack_registers] unpacks. *)
Lemma dense_body_round_trip (R : list Z) :
  Forall (fun v => 0 <= v < 2 ^ binbits) R ->
  Forall fits_int32 R ->
  len R * binbits <= 2 ^ 20 ->
  exists data,
    pack_body binbits (map PyInt R) = Ok data /\
    len data = (len R * binbits + 7) / 8 /\
    unpack_registers np data (len R) binbits = Ok R.
Proof.
  intros HR Hfit Hcap.
  assert (Hin : Forall (in_range binbits 0) (map (fun v => (v, 0)) R)).
  { rewrite Forall_map. eapply Forall_impl; [| exact HR].
    intros v Hv. unfold in_range. cbn [fst snd]. split; [exact Hv | cbn; lia]. }
  assert (Hfit' : Forall entry_fits_int32 (map (fun v => (v, 0)) R)).
  { rewrite Forall_map. eapply Forall_impl; [| exact Hfit].
    intros v Hv. split; [exact Hv |].
    cbn [snd]. unfold fits_int32, int32_min, int32_max. lia. }
  destruct (compress_in_range binbits 0 ltac:(lia) ltac:(lia) _ Hin)
    as (data & Hc & Hv & Hl).
  assert (Hl' : len data = (len R * binbits + 7) / 8).
  { rewrite Hl. unfold sparse_bytes, len. now rewrite length_map, Z.add_0_r. }
  exists data. rewrite pack_body_as_sparse by assumption.
  split; [exact Hc |]. split; [exact Hl' |].
  unfold unpack_registers.
  pose proof (len_nonneg R) as Hn.
  destruct (Z.ltb_spec (len R) 0); [lia |]. valid_binbits.
  destruct (Z.eqb_spec (len R) 0) as [Hz | Hnz].
  - destruct R; [reflexivity | rewrite len_cons in Hz; pose proof (len_nonneg R); lia].
  - destruct (Z.ltb_spec (len data) ((len R * binbits + 7) / 8)); [lia |].
    destruct (Z.ltb_spec (2 ^ 20) (len R * binbits)); [lia |].
    rewrite (for_fill_bind_map _ (sparse_row np binbits 0 (from_bytes data)) fst)
      by (intros i Hi; apply unpack_cell_as_row; apply range_nonneg in Hi; lia).
    rewrite Hv.
    replace (len R) with (Z.of_nat (length (map (fun v : Z => (v, 0)) R) + 0))
      by (unfold len; rewrite length_map; lia).
    rewrite (rows_in_range np np_ok binbits 0 ltac:(lia) ltac:(lia)) by assumption.
    cbn [bind repeat]. rewrite app_nil_r, map_map. cbn [fst].
    now rewrite map_id.
Qed.

End DenseBody.

(** ** The sparse encoder on the rows of an array *)

(** A result computed from a NumPy scalar is a NumPy scalar. *)
Lemma scalar_binop_np_l (np : numpy) (op : binop) (x : Z) (b c : scalar) :
  scalar_binop np op (NpInt x) b = Ok c -> exists z, c = NpInt z.
Proof.
  unfold scalar_binop.
  destruct (np_binop np op (NpInt x) b) as [z | e]; cbn [bind]; [| discriminate].
  intros E. inversion E. eauto.
Qed.

Lemma scalar_binop_np_r (np : numpy) (op : binop) (a : scalar) (y : Z) (c : scalar) :
  scalar_binop np op a (NpInt y) = Ok c -> exists z, c = NpInt z.
Proof.
  unfold scalar_binop. destruct a as [x | x];
    (destruct (np_binop np op _ (NpInt y)) as [z | e]; cbn [bind]; [| discriminate]);
    intros E; inversion E; eauto.
Qed.

(** After a row of NumPy scalars the accumulator is a NumPy scalar, and it
    stays one. *)
Lemma compress_step_np_row (np : numpy) (b rbits : Z) (st st' : scalar * Z) (i r : Z) :
  compress_step np b rbits st (NpInt i, NpInt r) = Ok st' ->
  exists z, fst st' = NpInt z.
Proof.
  destruct st as [bitstream total_bits]. unfold compress_step.
  destruct (scalar_binop np LShift (NpInt i) _) as [hi |] eqn:Ehi; cbn [bind];
    [| discriminate].
  destruct (py_lshift 1 rbits) as [one |]; cbn [bind]; [| discriminate].
  destruct (scalar_binop np And (NpInt r) _) as [lo |]; cbn [bind]; [| discriminate].
  destruct (scalar_binop np Or hi lo) as [entry |] eqn:Eentry; cbn [bind];
    [| discriminate].
  destruct (scalar_binop np LShift entry _) as [shifted |] eqn:Eshifted; cbn [bind];
    [| discriminate].
  destruct (scalar_binop np Or bitstream shifted) as [bitstream' |] eqn:Eacc;
    cbn [bind]; [| discriminate].
  intros E. inversion E. cbn [fst].
  apply scalar_binop_np_l in Ehi. destruct Ehi as [zh ->].
  apply scalar_binop_np_l in Eentry. destruct Eentry as [ze ->].
  apply scalar_binop_np_l in Eshifted. destruct Eshifted as [zs ->].
  apply scalar_binop_np_r in Eacc. exact Eacc.
Qed.

Lemma compress_step_np_acc (np : numpy) (b rbits z total_bits : Z)
      (e : scalar * scalar) (st' : scalar * Z) :
  compress_step np b rbits (NpInt z, total_bits) e = Ok st' ->
  exists z', fst st' = NpInt z'.
Proof.
  destruct e as [idx rho]. unfold compress_step.
  destruct (scalar_binop np LShift idx _) as [hi |]; cbn [bind]; [| discriminate].
  destruct (py_lshift 1 rbits) as [one |]; cbn [bind]; [| discriminate].
  destruct (scalar_binop np And rho _) as [lo |]; cbn [bind]; [| discriminate].
  destruct (scalar_binop np Or hi lo) as [entry |]; cbn [bind]; [| discriminate].
  destruct (scalar_binop np LShift entry _) as [shifted |]; cbn [bind];
    [| discriminate].
  destruct (scalar_binop np Or (NpInt z) shifted) as [bitstream' |] eqn:Eacc;
    cbn [bind]; [| discriminate].
  intros E. inversion E. cbn [fst].
  apply scalar_binop_np_l in Eacc. exact Eacc.
Qed.

Lemma compress_loop_np_acc (np : numpy) (b rbits : Z) (es : list (scalar * scalar)) :
  forall z total_bits st',
    compress_loop np b rbits (NpInt z, total_bits) es = Ok st' ->
    exists z', fst st' = NpInt z'.
Proof.
  induction es as [| e es IH]; intros z total_bits st'; cbn [compress_loop].
  - intros E. inversion E. cbn [fst]. eauto.
  - destruct (compress_step np b rbits (NpInt z, total_bits) e) as [[a t] |] eqn:Es;
      cbn [bind]; [| discriminate].
    apply compress_step_np_acc in Es. destruct Es as [z' Hz]. cbn [fst] in Hz.
    subst a. apply IH.
Qed.

(** On the rows of a non-empty array the encoder returns no bytes: the
    accumulator has become a NumPy scalar and has no [to_bytes]. *)
Lemma compress_int32_rows_fails (np : numpy) (e : entry) (es : list entry)
      (b rbits : Z) (data : bytes) :
  compress_sparse_registers np (int32_rows (e :: es)) b rbits <> Ok data.
Proof.
  unfold compress_sparse_registers. cbn [int32_rows map compress_loop].
  destruct (compress_step np b rbits (PyInt 0, 0) _) as [[a t] |] eqn:Es;
    cbn [bind]; [| discriminate].
  apply compress_step_np_row in Es. destruct Es as [z Hz]. cbn [fst] in Hz. subst a.
  fold (int32_rows es).
  destruct (compress_loop np b rbits (NpInt z, t) (int32_rows es)) as [[a' t'] |] eqn:El;
    cbn [bind]; [| discriminate].
  apply compress_loop_np_acc in El. destruct El as [z' Hz']. cbn [fst] in Hz'.
  subst a'. discriminate.
Qed.

Lemma as_int32_py (z : Z) : fits_int32 z -> as_int32 (PyInt z) = Ok z.
Proof.
  intros [Hlo Hhi]. unfold as_int32.
  destruct (Z.leb_spec int32_min z); [| lia].
  destruct (Z.leb_spec z int32_max); [reflexivity | lia].
Qed.

(** With the arithmetic of NumPy 2.x no operation of the loop raises as long
    as [rbits] and the bit offsets are [int32] values. *)
Lemma compress_step_int32 (np : numpy) (b rbits : Z) (a : scalar) (t i r : Z) :
  np_binop np = int32_binop ->
  0 <= rbits <= 31 -> fits_int32 t ->
  (exists v, as_int32 a = Ok v) ->
  exists z,
    compress_step np b rbits (a, t) (NpInt i, NpInt r) = Ok (NpInt z, t + (b + rbits)).
Proof.
  intros Hnp Hr Ht [v Hv].
  assert (Hmask : fits_int32 (Z.shiftl 1 rbits - 1)).
  { rewrite Z.shiftl_1_l.
    assert (0 < 2 ^ rbits) by (apply Z.pow_pos_nonneg; lia).
    assert (2 ^ rbits <= 2 ^ 31) by (apply Z.pow_le_mono_r; lia).
    unfold fits_int32, int32_min, int32_max. lia. }
  assert (Hrb : fits_int32 rbits) by (unfold fits_int32, int32_min, int32_max; lia).
  unfold compress_step, scalar_binop, py_lshift. rewrite Hnp.
  destruct (Z.ltb_spec rbits 0); [lia |].
  assert (Hnpi : forall z, as_int32 (NpInt z) = Ok z) by reflexivity.
  unfold int32_binop.
  rewrite Hnpi, (as_int32_py rbits Hrb). cbn [bind].
  rewrite Hnpi, (as_int32_py _ Hmask). cbn [bind].
  rewrite !Hnpi. cbn [bind].
  rewrite Hnpi, (as_int32_py t Ht). cbn [bind].
  destruct a as [x | x]; rewrite Hv, Hnpi; cbn [bind]; eexists; reflexivity.
Qed.

Lemma compress_loop_int32 (np : numpy) (b rbits : Z) (es : list entry) :
  np_binop np = int32_binop ->
  0 <= rbits <= 31 -> 0 <= b + rbits ->
  forall a t,
    0 <= t -> t + len es * (b + rbits) <= int32_max ->
    (exists v, as_int32 a = Ok v) ->
    exists a',
      compress_loop np b rbits (a, t) (int32_rows es) = Ok (a', t + len es * (b + rbits)) /\
      (es <> [] -> exists z, a' = NpInt z).
Proof.
  intros Hnp Hr He. induction es as [| [i r] es IH]; intros a t Ht Hend Ha.
  - exists a. cbn [int32_rows map compress_loop]. split.
    + do 2 f_equal. change (len (@nil entry)) with 0. lia.
    + intros Hne. contradiction.
  - rewrite len_cons in Hend. pose proof (len_nonneg es) as Hn.
    assert (0 <= (1 + len es) * (b + rbits)) by (apply Z.mul_nonneg_nonneg; lia).
    assert (Hfit : fits_int32 t) by (unfold fits_int32, int32_min; lia).
    destruct (compress_step_int32 np b rbits a t i r Hnp Hr Hfit Ha) as [z Hz].
    cbn [int32_rows map compress_loop fst snd]. rewrite Hz. cbn [bind].
    destruct (IH (NpInt z) (t + (b + rbits)) ltac:(lia) ltac:(lia)
                 ltac:(eexists; reflexivity)) as (a' & Hloop & Hnp').
    fold (int32_rows es). rewrite Hloop.
    exists a'. split.
    { f_equal. f_equal. rewrite len_cons. clear. lia. }
    intros _.
    destruct es as [| e' es'].
    + cbn [int32_rows map compress_loop] in Hloop. inversion Hloop. eauto.
    + apply Hnp'. discriminate.
Qed.

(** * The claims *)

(** ** Dense codec *)

(** C1 (dense round trip), evaluated on the code.  The array of one zero
    register is packed into no byte at all, from which [unpack_registers]
    cannot read a register back; an array with one non-zero register and an
    array with several registers are not packed, [pack_registers] raises
    [ValueError] on them. *)
Theorem dense_round_trip_zero_register (np : numpy) :
  pack_registers np [0] 4 = Ok [] /\
  unpack_registers np [] (len [0]) 4 = Err (ValueError insufficient_data) /\
  pack_registers np [5] 4 = Err (ValueError (register_not_int 0)) /\
  pack_registers np [1; 2; 3] 4 = Err (ValueError truth_value_ambiguous).
Proof.
  split; [| split; [| split]].
  - apply pack_registers_zero. lia.
  - apply unpack_registers_no_data; [lia | reflexivity].
  - apply pack_registers_nonzero; lia.
  - apply pack_registers_several; [lia | simpl; lia].
Qed.

(** C2 (dense concrete vector), evaluated on the code.  On the array
    [1, 2, 3] with [binbits = 4] the call of [pack_registers] does not return
    the bytes 0x21 0x03: the truth value of a three-element array is
    ambiguous and [ValueError] is raised. *)
Theorem dense_vector_pack_raises (np : numpy) :
  pack_registers np [1; 2; 3] 4 = Err (ValueError truth_value_ambiguous).
Proof. apply pack_registers_several; [lia | simpl; lia]. Qed.

(** C3 (length law), evaluated on the code.  For the array of one zero
    register and [binbits = 4] the law asks for one byte; [pack_registers]
    returns none. *)
Theorem length_law_zero_register (np : numpy) :
  (len [0] * 4 + 7) / 8 = 1 /\
  exists data, pack_registers np [0] 4 = Ok data /\ len data = 0.
Proof.
  split; [reflexivity |]. exists []. split; [| reflexivity].
  apply pack_registers_zero. lia.
Qed.

(** C4 (capacity ceiling), evaluated on the code.  300000 registers of 4
    bits are 1200000 bits, above the ceiling of 2^20; [pack_registers] raises
    [ValueError] at the emptiness test and never [OverflowError]. *)
Theorem capacity_ceiling_not_reached (np : numpy) :
  2 ^ 20 < len (repeat 0 (Z.to_nat 300000)) * 4 /\
  pack_registers np (repeat 0 (Z.to_nat 300000)) 4 =
    Err (ValueError truth_value_ambiguous) /\
  ~ raises_OverflowError (pack_registers np (repeat 0 (Z.to_nat 300000)) 4).
Proof.
  assert (Hlen : len (repeat 0 (Z.to_nat 300000)) = 300000)
    by (unfold len; rewrite repeat_length; lia).
  assert (Hcap : 2 ^ 20 < len (repeat 0 (Z.to_nat 300000)) * 4)
    by (rewrite Hlen; reflexivity).
  split; [exact Hcap |].
  rewrite pack_registers_over_capacity by (lia || exact Hcap).
  split; [reflexivity |]. intros [why E]. discriminate.
Qed.

(** C7 (boundary rejection).  [pack_registers] raises [ValueError] on the
    array [-1] and on the array [16] with [binbits = 4], and
    [unpack_registers] raises the [ValueError] of insufficient data on empty
    bytes with [m = 3] and [binbits = 4]. *)
Theorem boundary_rejection (np : numpy) :
  raises_ValueError (pack_registers np [-1] 4) /\
  raises_ValueError (pack_registers np [16] 4) /\
  unpack_registers np [] 3 4 = Err (ValueError insufficient_data).
Proof.
  split; [| split].
  - eexists. apply pack_registers_nonzero; lia.
  - eexists. apply pack_registers_nonzero; lia.
  - apply unpack_registers_no_data; lia.
Qed.

(** C9 (empty input), evaluated on the code.  With NumPy 2.2 or later
    [pack_registers] does not return empty bytes on the empty array, for any
    [binbits] in [1, 64]: the truth value of an empty array is an error
    there, and the emptiness test raises [ValueError].  With NumPy 2.1 the
    same call returns empty bytes.  [unpack_registers] with [m = 0] returns
    the empty sequence for every byte sequence, in every version. *)
Theorem empty_input_raises (binbits : Z) :
  1 <= binbits <= 64 ->
  pack_registers numpy_2_2 [] binbits = Err (ValueError truth_value_ambiguous) /\
  pack_registers numpy_2_1 [] binbits = Ok [] /\
  forall (np : numpy) (data : bytes), unpack_registers np data 0 binbits = Ok [].
Proof.
  intros Hb. split; [| split].
  - rewrite pack_registers_gate by exact Hb. reflexivity.
  - rewrite pack_registers_gate by exact Hb. reflexivity.
  - intros np data. apply unpack_registers_zero. exact Hb.
Qed.

Lemma empty_input_raises_witness :
  pack_registers numpy_2_2 [] 4 = Err (ValueError truth_value_ambiguous) /\
  pack_registers numpy_2_1 [] 4 = Ok [] /\
  forall (np : numpy) (data : bytes), unpack_registers np data 0 4 = Ok [].
Proof. apply (empty_input_raises 4). lia. Defined.

(** C10 (single zero register).  For every [binbits] in [1, 64] the array of
    one zero register is packed into empty bytes, fewer than the
    [ceil(binbits / 8)] bytes of one register. *)
Theorem pack_single_zero_is_empty (np : numpy) (binbits : Z) :
  1 <= binbits <= 64 ->
  pack_registers np [0] binbits = Ok [] /\
  len (@nil byte) = 0 /\
  1 <= (len [0] * binbits + 7) / 8.
Proof.
  intros Hb. split; [apply pack_registers_zero; exact Hb |].
  split; [reflexivity |]. apply ceil_bytes_pos; [exact Hb | reflexivity].
Qed.

Lemma pack_single_zero_is_empty_witness :
  pack_registers numpy_2_2 [0] 4 = Ok [] /\
  len (@nil byte) = 0 /\
  1 <= (len [0] * 4 + 7) / 8.
Proof. apply (pack_single_zero_is_empty numpy_2_2 4); lia. Defined.

(** ** Sparse codec *)

(** C5, as stated, fails: the index [2^31], given as a Python integer, fits
    a field of [b = 32] bits and the compressed form has no spare slot, but
    the decoder stores the index into an [int32] array, which cannot hold
    it. *)
Lemma sparse_round_trip_beyond_int32 :
  Forall (in_range 32 6) [(2 ^ 31, 0)] /\
  sparse_slots (len [(2 ^ 31, 0)]) 32 6 = len [(2 ^ 31, 0)] /\
  compress_sparse_registers numpy_2_2 (py_entries [(2 ^ 31, 0)]) 32 6 = Ok [x00; x00; x00; x00; x20] /\
  decompress_sparse_registers numpy_2_1 [x00; x00; x00; x00; x20] 32 6 =
    Err (OverflowError out_of_bounds_int32) /\
  decompress_sparse_registers numpy_2_2 [x00; x00; x00; x00; x20] 32 6 =
    Err (OverflowError out_of_bounds_int32) /\
  forall np, numpy_ok np ->
    decompress_sparse_registers np [x00; x00; x00; x00; x20] 32 6 <> Ok [(2 ^ 31, 0)].
Proof.
  split; [| split; [| split; [| split; [| split]]]].
  - constructor; [| constructor]. vm_compute. repeat split; discriminate.
  - reflexivity.
  - vm_compute. reflexivity.
  - vm_compute. reflexivity.
  - vm_compute. reflexivity.
  - intros np Hok.
    rewrite decompress_sparse_registers_closed by lia.
    change (range (len [x00; x00; x00; x00; x20] * 8 / (32 + 6))) with [0].
    cbn [for_fill]. unfold sparse_row, decompress_row.
    change (py_rshift (from_bytes [x00; x00; x00; x00; x20]) (0 * (32 + 6)))
      with (@Ok Z (2 ^ 37)).
    cbn [bind].
    change (py_rshift (Z.land (2 ^ 37) (Z.shiftl 1 (32 + 6) - 1)) 6)
      with (@Ok Z (2 ^ 31)).
    cbn [bind].
    destruct (store_int32 np (2 ^ 31)) as [w | e] eqn:E; cbn [bind]; [| discriminate].
    apply (store_is_int32 np Hok) in E.
    destruct (store_int32 np _) as [w' | e']; cbn [bind]; [| discriminate].
    intros H. inversion H. subst w.
    unfold fits_int32, int32_max in E. lia.
Qed.

(** C5 (sparse round trip), amended: for field widths [b, rbits >= 0] with
    [b + rbits >= 1], every list of entries given as pairs of Python
    integers, with [0 <= index < 2^b] and [0 <= rho < 2^rbits], whose values
    an [int32] array can hold and whose compressed form holds no spare slot,
    is given back by [decompress_sparse_registers] from the bytes that
    [compress_sparse_registers] returns.  (Entries given as the rows of an
    array are the matter of [compress_int32_rows_fails].) *)
Theorem sparse_round_trip (np : numpy) (b rbits : Z) (E : list entry) :
  numpy_ok np ->
  0 <= b -> 0 <= rbits -> 0 < b + rbits ->
  Forall (in_range b rbits) E ->
  Forall entry_fits_int32 E ->
  sparse_slots (len E) b rbits = len E ->
  exists data,
    compress_sparse_registers np (py_entries E) b rbits = Ok data /\
    decompress_sparse_registers np data b rbits = Ok E.
Proof.
  intros Hok Hb Hr He Hin Hfit Hslots.
  destruct (sparse_round_trip_padded np Hok b rbits Hb Hr He E Hin Hfit)
    as (data & Hc & Hd).
  exists data. split; [rewrite compress_py_entries; exact Hc |].
  rewrite Hd, Hslots, Z.sub_diag. cbn [Z.to_nat repeat].
  now rewrite app_nil_r.
Qed.

Lemma sparse_round_trip_witness :
  exists data,
    compress_sparse_registers numpy_2_2 (py_entries [(0, 5); (1, 10)]) 4 6 = Ok data /\
    decompress_sparse_registers numpy_2_2 data 4 6 = Ok [(0, 5); (1, 10)].
Proof.
  apply (sparse_round_trip numpy_2_2 4 6 [(0, 5); (1, 10)]).
  - exact numpy_2_2_ok.
  - lia.
  - lia.
  - lia.
  - repeat constructor; vm_compute; discriminate.
  - repeat constructor; vm_compute; discriminate.
  - reflexivity.
Defined.

(** C6, as stated, fails: nine bytes 0xff with [b = 64] and [rbits = 6] hold
    one slot of 70 bits, whose index [2^64 - 1] cannot be stored into the
    [int32] result array; no entry is returned. *)
Lemma decompress_count_beyond_int32 :
  len (repeat xff 9) * 8 / (64 + 6) = 1 /\
  decompress_sparse_registers numpy_2_1 (repeat xff 9) 64 6 =
    Err (OverflowError out_of_bounds_int32) /\
  decompress_sparse_registers numpy_2_2 (repeat xff 9) 64 6 =
    Err (OverflowError out_of_bounds_int32).
Proof.
  split; [reflexivity |]. split; vm_compute; reflexivity.
Qed.

(** C6 (sparse padding decoding), amended: for field widths
    [0 <= b <= 31] and [0 <= rbits <= 31] with [b + rbits >= 1],
    [decompress_sparse_registers] returns exactly
    [(len(data) * 8) // (b + rbits)] entries for every byte sequence, and for
    every in-range list of entries given as pairs of Python integers, whose
    compressed form has room for one more slot, it returns the entries
    followed by one [(0, 0)] entry. *)
Theorem sparse_padding_decoding (np : numpy) (b rbits : Z) :
  numpy_ok np ->
  0 <= b <= 31 -> 0 <= rbits <= 31 -> 0 < b + rbits ->
  (forall data, exists rows,
      decompress_sparse_registers np data b rbits = Ok rows /\
      len rows = len data * 8 / (b + rbits)) /\
  (forall E,
      Forall (in_range b rbits) E ->
      sparse_slots (len E) b rbits = len E + 1 ->
      exists data,
        compress_sparse_registers np (py_entries E) b rbits = Ok data /\
        decompress_sparse_registers np data b rbits = Ok (E ++ [(0, 0)])).
Proof.
  intros Hok Hb Hr He. split.
  - intros data. apply decompress_count; lia || assumption.
  - intros E Hin Hslots.
    assert (Hfit : Forall entry_fits_int32 E).
    { eapply Forall_impl; [| exact Hin].
      intros e. apply (in_range_fits_int32 b rbits); lia. }
    destruct (sparse_round_trip_padded np Hok b rbits ltac:(lia) ltac:(lia) He E Hin Hfit)
      as (data & Hc & Hd).
    exists data. split; [rewrite compress_py_entries; exact Hc |].
    rewrite Hd, Hslots. replace (len E + 1 - len E) with 1 by lia.
    reflexivity.
Qed.

Lemma sparse_padding_decoding_witness :
  (exists rows,
      decompress_sparse_registers numpy_2_2 [x0e] 2 2 = Ok rows /\
      len rows = len [x0e] * 8 / (2 + 2)) /\
  (exists data,
      compress_sparse_registers numpy_2_2 (py_entries [(3, 2)]) 2 2 = Ok data /\
      decompress_sparse_registers numpy_2_2 data 2 2 = Ok ([(3, 2)] ++ [(0, 0)])).
Proof.
  destruct (sparse_padding_decoding numpy_2_2 2 2 numpy_2_2_ok
              ltac:(lia) ltac:(lia) ltac:(lia)) as [Hcount Hpad].
  split; [apply Hcount |]. apply Hpad.
  - repeat constructor; vm_compute; discriminate.
  - reflexivity.
Defined.

(** C8, as stated, fails, on entries given as Python integers: an index far
    out of range makes the accumulator longer than the output and [to_bytes]
    raises [OverflowError]; and a rho out of range touches no other field,
    it is cut to its low [rbits] bits (the bytes are those of rho [0]). *)
Lemma compress_out_of_range_raises :
  compress_sparse_registers numpy_2_2 (py_entries [(1024, 0)]) 4 6 = Err (OverflowError int_too_big) /\
  compress_sparse_registers numpy_2_2 (py_entries [(0, 64); (1, 10)]) 4 6 = Ok [x00; x28; x01] /\
  compress_sparse_registers numpy_2_2 (py_entries [(0, 0); (1, 10)]) 4 6 = Ok [x00; x28; x01].
Proof. repeat split; vm_compute; reflexivity. Qed.

(** C8 (no validation in the sparse encoder), amended: for widths
    [b, rbits >= 0] and entries given as pairs of Python integers,
    [compress_sparse_registers] tests neither index nor rho.
    It returns [ceil(n * (b + rbits) / 8)] bytes whenever the accumulated
    value is non-negative and fits them, and raises the [OverflowError] of
    [to_bytes] otherwise.  A rho out of range is cut to its low [rbits] bits
    and changes no other field.  The bits of an index above bit [b] are or-ed
    into the entry that follows: the result is that of the entries where the
    index is reduced to its low [b] bits and the excess is or-ed into the
    rho and the index of the next entry. *)
Theorem compress_no_validation (np : numpy) (b rbits : Z) :
  0 <= b -> 0 <= rbits ->
  (forall es,
      (0 <= sparse_bitstream es b rbits < 2 ^ (8 * sparse_bytes (len es) b rbits) ->
       exists data,
         compress_sparse_registers np (py_entries es) b rbits = Ok data /\
         len data = sparse_bytes (len es) b rbits) /\
      (~ 0 <= sparse_bitstream es b rbits < 2 ^ (8 * sparse_bytes (len es) b rbits) ->
       raises_OverflowError (compress_sparse_registers np (py_entries es) b rbits))) /\
  (forall es,
      compress_sparse_registers np (py_entries (map (fun e => (fst e, snd e mod 2 ^ rbits)) es)) b rbits =
      compress_sparse_registers np (py_entries es) b rbits) /\
  (forall pre idx rho idx' rho' rest,
      compress_sparse_registers np (py_entries (pre ++ (idx, rho) :: (idx', rho') :: rest)) b rbits =
      compress_sparse_registers np (py_entries (pre ++ (idx mod 2 ^ b, rho)
             :: (Z.lor idx' (Z.shiftr (idx / 2 ^ b) rbits),
                 Z.lor rho' ((idx / 2 ^ b) mod 2 ^ rbits)) :: rest)) b rbits).
Proof.
  intros Hb Hr. split; [| split].
  - intros es.
    pose proof (sparse_bytes_nonneg b rbits Hb Hr (len es) (len_nonneg es)) as Hnb.
    rewrite !compress_py_entries, compress_ints_closed by assumption. split.
    + intros Hfit. rewrite to_bytes_fits by assumption.
      eexists. split; [reflexivity |].
      unfold len at 1. rewrite le_bytes_length. lia.
    + intros Hover. apply to_bytes_overflows; assumption.
  - intros es. rewrite !compress_py_entries, !compress_ints_closed by assumption.
    rewrite sparse_bitstream_rho_mod by assumption.
    unfold len. now rewrite length_map.
  - intros pre idx rho idx' rho' rest.
    rewrite !compress_py_entries, !compress_ints_closed by assumption.
    f_equal.
    + apply (sparse_bitstream_spill b rbits Hb Hr).
    + unfold len. rewrite !length_app. reflexivity.
Qed.

Lemma compress_no_validation_witness :
  (exists data,
      compress_sparse_registers numpy_2_2 (py_entries [(16, 0); (0, 0)]) 4 6 = Ok data /\
      len data = sparse_bytes (len [(16, 0); (0, 0)]) 4 6) /\
  compress_sparse_registers numpy_2_2 (py_entries (map (fun e => (fst e, snd e mod 2 ^ 6)) [(0, 64); (1, 10)])) 4 6 =
  compress_sparse_registers numpy_2_2 (py_entries [(0, 64); (1, 10)]) 4 6 /\
  compress_sparse_registers numpy_2_2 (py_entries ([] ++ [(16, 0); (0, 0)])) 4 6 =
  compress_sparse_registers numpy_2_2 (py_entries ([] ++ [(0, 0); (0, 1)])) 4 6.
Proof.
  destruct (compress_no_validation numpy_2_2 4 6 ltac:(lia) ltac:(lia)) as (Hfit & Hrho & Hspill).
  split; [| split].
  - apply (Hfit [(16, 0); (0, 0)]). vm_compute. split; discriminate || reflexivity.
  - apply (Hrho [(0, 64); (1, 10)]).
  - exact (Hspill [] 16 0 0 0 []).
Defined.

(** * Further properties of the module *)

(** ** More on bytes *)

Lemma byte_of_Z_value (c : byte) : byte_of_Z (byte_value c) = c.
Proof.
  unfold byte_of_Z, byte_value. rewrite N2Z.id, Byte.of_to_N. reflexivity.
Qed.

Lemma from_bytes_bound (data : bytes) : 0 <= from_bytes data < 2 ^ (8 * len data).
Proof.
  induction data as [| c data IH]; cbn [from_bytes].
  - change (len (@nil byte)) with 0. cbn. lia.
  - rewrite len_cons. pose proof (byte_value_range c) as Hc.
    pose proof (len_nonneg data) as Hn.
    replace (8 * (1 + len data)) with (8 + 8 * len data) by lia.
    rewrite Z.pow_add_r by lia. change (2 ^ 8) with 256. lia.
Qed.

Lemma from_bytes_app (d d' : bytes) :
  from_bytes (d ++ d') = from_bytes d + 2 ^ (8 * len d) * from_bytes d'.
Proof.
  induction d as [| c d IH]; cbn [app from_bytes].
  - change (len (@nil byte)) with 0. rewrite Z.mul_0_r, Z.pow_0_r. lia.
  - rewrite IH, len_cons. pose proof (len_nonneg d) as Hn.
    replace (8 * (1 + len d)) with (8 + 8 * len d) by lia.
    rewrite Z.pow_add_r by lia. change (2 ^ 8) with 256. lia.
Qed.

Lemma le_bytes_from_bytes (data : bytes) :
  le_bytes (length data) (from_bytes data) = data.
Proof.
  induction data as [| c data IH]; cbn [length le_bytes from_bytes]; [reflexivity |].
  pose proof (byte_value_range c) as Hc.
  rewrite (Z.mul_comm 256), Z_mod_plus_full, Z.mod_small by lia.
  rewrite Z.div_add, Z.div_small, Z.add_0_l by lia.
  now rewrite byte_of_Z_value, IH.
Qed.

Lemma for_fill_ok_map {A B : Type} (f : A -> result B) (g : A -> B) (l : list A) :
  (forall x, In x l -> f x = Ok (g x)) -> for_fill f l = Ok (map g l).
Proof.
  induction l as [| x l IH]; intros H; cbn [for_fill map]; [reflexivity |].
  rewrite (H x) by (left; reflexivity). cbn [bind].
  rewrite IH by (intros y Hy; apply H; right; exact Hy). reflexivity.
Qed.

Lemma for_fill_values {A B : Type} (P : B -> Prop) (f : A -> result B) (l : list A) :
  (forall x y, In x l -> f x = Ok y -> P y) ->
  forall ys, for_fill f l = Ok ys -> Forall P ys.
Proof.
  induction l as [| x l IH]; intros H ys; cbn [for_fill].
  - intros E. inversion E. constructor.
  - destruct (f x) as [y | e] eqn:Ey; cbn [bind]; [| discriminate].
    destruct (for_fill f l) as [ys' | e]; cbn [bind]; [| discriminate].
    intros E. inversion E. constructor.
    + apply (H x); [left; reflexivity | exact Ey].
    + apply IH; [| reflexivity]. intros z w Hz. apply H. right. exact Hz.
Qed.

(** The field of [width] bits at offset [shift] lies below bit [k] of the
    accumulator and does not see what is added above it. *)
Lemma field_below (V W shift width k : Z) :
  0 <= shift -> 0 <= width -> shift + width <= k ->
  Z.land (Z.shiftr (V + 2 ^ k * W) shift) (Z.shiftl 1 width - 1) =
  Z.land (Z.shiftr V shift) (Z.shiftl 1 width - 1).
Proof.
  intros Hs Hw Hk. rewrite !land_mask, !Z.shiftr_div_pow2 by lia.
  replace (2 ^ k) with (2 ^ (k - shift - width) * 2 ^ width * 2 ^ shift)
    by (rewrite <- !Z.pow_add_r by lia; f_equal; lia).
  replace (V + 2 ^ (k - shift - width) * 2 ^ width * 2 ^ shift * W)
    with (V + (2 ^ (k - shift - width) * W * 2 ^ width) * 2 ^ shift) by ring.
  rewrite Z.div_add by (apply Z.pow_nonzero; lia).
  replace (2 ^ (k - shift - width) * W * 2 ^ width)
    with ((2 ^ (k - shift - width) * W) * 2 ^ width) by ring.
  apply Z_mod_plus_full.
Qed.

(** ** Dense codec *)

(** X1.  Every call of [pack_registers] on a one-dimensional integer array
    either raises [ValueError] or returns the empty bytes; it returns only
    with a width in [1, 64] and for the empty array or the array of a single
    zero. *)
Theorem pack_registers_outcome (np : numpy) (registers : ndarray) (binbits : Z) :
  (pack_registers np registers binbits = Ok [] /\
   1 <= binbits <= 64 /\ (registers = [] \/ registers = [0])) \/
  raises_ValueError (pack_registers np registers binbits).
Proof.
  destruct (Z_le_gt_dec 1 binbits) as [H1 | H1];
    [destruct (Z_le_gt_dec binbits 64) as [H2 | H2] |];
    try (right; apply pack_registers_bad_binbits; lia).
  assert (Hb : 1 <= binbits <= 64) by lia.
  destruct registers as [| x [| y rest]].
  - rewrite pack_registers_gate by exact Hb. cbn [ndarray_bool].
    destruct (empty_is_false np); cbn [bind negb].
    + left. auto.
    + right. eexists. reflexivity.
  - destruct (Z.eq_dec x 0) as [-> | Hx].
    + left. rewrite pack_registers_zero by exact Hb. auto.
    + right. eexists. apply pack_registers_nonzero; assumption.
  - right. eexists. apply pack_registers_several; [exact Hb | simpl; lia].
Qed.

(** X20.  Where the truth value of an empty array is [False] (NumPy up to
    2.1), [pack_registers] returns empty bytes on the empty one-dimensional
    array for every [binbits] in [1, 64], and [unpack_registers] with
    [m = 0] returns the empty sequence for every byte sequence. *)
Theorem empty_input (np : numpy) (binbits : Z) (data : bytes) :
  empty_is_false np = true ->
  1 <= binbits <= 64 ->
  pack_registers np [] binbits = Ok [] /\
  unpack_registers np data 0 binbits = Ok [].
Proof.
  intros Hempty Hb. split.
  - rewrite pack_registers_gate by exact Hb. cbn [ndarray_bool].
    rewrite Hempty. reflexivity.
  - apply unpack_registers_zero. exact Hb.
Qed.

Lemma empty_input_witness :
  pack_registers numpy_2_1 [] 4 = Ok [] /\
  unpack_registers numpy_2_1 [x21; x03] 0 4 = Ok [].
Proof. apply (empty_input numpy_2_1 4 [x21; x03]); [reflexivity | lia]. Defined.

(** X2.  Lines 34-60 of [pack_registers], run on Python integers in
    [[0, 2^binbits)] that fit [int32] and stay under the ceiling of 2^20
    bits, give [ceil(m * binbits / 8)] bytes from which [unpack_registers]
    returns the same integers. *)
Theorem pack_body_unpack_round_trip (np : numpy) (binbits : Z) (R : list Z) :
  numpy_ok np ->
  1 <= binbits <= 64 ->
  Forall (fun v => 0 <= v < 2 ^ binbits) R ->
  Forall fits_int32 R ->
  len R * binbits <= 2 ^ 20 ->
  exists data,
    pack_body binbits (map PyInt R) = Ok data /\
    len data = (len R * binbits + 7) / 8 /\
    unpack_registers np data (len R) binbits = Ok R.
Proof. intros Hok Hb. apply dense_body_round_trip; assumption. Qed.

Lemma pack_body_unpack_round_trip_witness :
  exists data,
    pack_body 4 (map PyInt [1; 2; 3]) = Ok data /\
    len data = (len [1; 2; 3] * 4 + 7) / 8 /\
    unpack_registers numpy_2_2 data (len [1; 2; 3]) 4 = Ok [1; 2; 3].
Proof.
  apply (pack_body_unpack_round_trip numpy_2_2 4 [1; 2; 3]).
  - exact numpy_2_2_ok.
  - lia.
  - repeat constructor; vm_compute; discriminate.
  - repeat constructor; vm_compute; discriminate.
  - vm_compute. discriminate.
Defined.

(** X3.  [unpack_registers] raises [ValueError] on a negative [m] and on a
    width outside of [1, 64], whatever the data. *)
Theorem unpack_registers_rejects (np : numpy) (data : bytes) (m binbits : Z) :
  m < 0 \/ binbits < 1 \/ 64 < binbits ->
  raises_ValueError (unpack_registers np data m binbits).
Proof.
  intros H. unfold unpack_registers, raises_ValueError.
  destruct (Z.ltb_spec m 0); [eauto |].
  destruct (Z.leb_spec binbits 0); [eauto |].
  destruct (Z.ltb_spec 64 binbits); [eauto | lia].
Qed.

Lemma unpack_registers_rejects_witness :
  raises_ValueError (unpack_registers numpy_2_2 [x21; x03] 3 65).
Proof. apply (unpack_registers_rejects numpy_2_2 [x21; x03] 3 65). lia. Defined.

(** X4.  With [m >= 1] and a valid width, data shorter than
    [ceil(m * binbits / 8)] bytes is refused with the [ValueError] of
    insufficient data, also when [m * binbits] is above the ceiling. *)
Theorem unpack_registers_short_data (np : numpy) (data : bytes) (m binbits : Z) :
  1 <= m -> 1 <= binbits <= 64 ->
  len data < (m * binbits + 7) / 8 ->
  unpack_registers np data m binbits = Err (ValueError insufficient_data).
Proof.
  intros Hm Hb Hshort. unfold unpack_registers.
  destruct (Z.ltb_spec m 0); [lia |]. valid_binbits.
  destruct (Z.eqb_spec m 0); [lia |].
  destruct (Z.ltb_spec (len data) ((m * binbits + 7) / 8)); [reflexivity | lia].
Qed.

Lemma unpack_registers_short_data_witness :
  unpack_registers numpy_2_2 [x21] 3 4 = Err (ValueError insufficient_data).
Proof.
  apply (unpack_registers_short_data numpy_2_2 [x21] 3 4); [lia | lia | reflexivity].
Defined.

(** X5.  With a valid width and enough data, a request of more than 2^20
    bits is refused with [OverflowError]. *)
Theorem unpack_registers_over_capacity (np : numpy) (data : bytes) (m binbits : Z) :
  1 <= binbits <= 64 ->
  2 ^ 20 < m * binbits ->
  (m * binbits + 7) / 8 <= len data ->
  unpack_registers np data m binbits = Err (OverflowError total_bits_too_large).
Proof.
  intros Hb Hcap Hdata. unfold unpack_registers.
  assert (1 <= m) by (change (2 ^ 20) with 1048576 in Hcap; nia).
  destruct (Z.ltb_spec m 0); [lia |]. valid_binbits.
  destruct (Z.eqb_spec m 0); [lia |].
  destruct (Z.ltb_spec (len data) ((m * binbits + 7) / 8)); [lia |].
  destruct (Z.ltb_spec (2 ^ 20) (m * binbits)); [reflexivity | lia].
Qed.

Lemma unpack_registers_over_capacity_witness :
  unpack_registers numpy_2_2 (repeat x00 (Z.to_nat 131080)) 16385 64 =
  Err (OverflowError total_bits_too_large).
Proof.
  apply (unpack_registers_over_capacity numpy_2_2 (repeat x00 (Z.to_nat 131080)) 16385 64).
  - lia.
  - reflexivity.
  - unfold len. rewrite repeat_length, Z2Nat.id by lia. vm_compute. discriminate.
Defined.

(** X6.  [unpack_registers] reads the first [ceil(m * binbits / 8)] bytes
    only: bytes appended to sufficient data do not change the result. *)
Theorem unpack_registers_ignores_trailing
        (np : numpy) (data extra : bytes) (m binbits : Z) :
  (m * binbits + 7) / 8 <= len data ->
  unpack_registers np (data ++ extra) m binbits = unpack_registers np data m binbits.
Proof.
  intros Hdata. unfold unpack_registers.
  destruct (Z.ltb_spec m 0); [reflexivity |].
  destruct (Z.leb_spec binbits 0); [reflexivity |].
  destruct (Z.ltb_spec 64 binbits); [reflexivity |].
  destruct (Z.eqb_spec m 0); [reflexivity |].
  rewrite len_app. pose proof (len_nonneg extra) as He.
  destruct (Z.ltb_spec (len data + len extra) ((m * binbits + 7) / 8)); [lia |].
  destruct (Z.ltb_spec (len data) ((m * binbits + 7) / 8)); [lia |].
  destruct (Z.ltb_spec (2 ^ 20) (m * binbits)); [reflexivity |].
  apply for_fill_ext_in. intros i Hi. apply range_nonneg in Hi.
  unfold unpack_cell. f_equal. rewrite from_bytes_app.
  apply field_below; [nia | lia |].
  pose proof (Z.div_mod (m * binbits + 7) 8 ltac:(lia)).
  pose proof (Z.mod_pos_bound (m * binbits + 7) 8 ltac:(lia)). nia.
Qed.

Lemma unpack_registers_ignores_trailing_witness :
  unpack_registers numpy_2_2 ([x21; x03] ++ [xff; xff]) 3 4 =
  unpack_registers numpy_2_2 [x21; x03] 3 4.
Proof.
  apply (unpack_registers_ignores_trailing numpy_2_2 [x21; x03] [xff; xff] 3 4).
  vm_compute. discriminate.
Defined.

(** X7.  For a width of at most 31 bits, [m >= 0], enough data and at most
    2^20 bits, [unpack_registers] returns [m] registers; register [i] is the
    number made of the bits [i * binbits] to [(i + 1) * binbits - 1] of the
    data read as a little-endian integer, so it lies in [[0, 2^binbits)]. *)
Theorem unpack_registers_total (np : numpy) (data : bytes) (m binbits : Z) :
  numpy_ok np ->
  1 <= binbits <= 31 -> 0 <= m ->
  (m * binbits + 7) / 8 <= len data ->
  m * binbits <= 2 ^ 20 ->
  exists regs,
    unpack_registers np data m binbits = Ok regs /\
    regs = map (fun i => (from_bytes data / 2 ^ (i * binbits)) mod 2 ^ binbits) (range m) /\
    len regs = m /\
    Forall (fun r => 0 <= r < 2 ^ binbits) regs.
Proof.
  intros Hok Hb Hm Hdata Hcap.
  assert (Hg : forall i, 0 <= (from_bytes data / 2 ^ (i * binbits)) mod 2 ^ binbits
                         < 2 ^ binbits)
    by (intros i; apply Z.mod_pos_bound; apply Z.pow_pos_nonneg; lia).
  eexists. split; [| split; [reflexivity | split]].
  - unfold unpack_registers.
    destruct (Z.ltb_spec m 0); [lia |]. valid_binbits.
    destruct (Z.eqb_spec m 0) as [-> | Hnz]; [reflexivity |].
    destruct (Z.ltb_spec (len data) ((m * binbits + 7) / 8)); [lia |].
    destruct (Z.ltb_spec (2 ^ 20) (m * binbits)); [lia |].
    apply for_fill_ok_map. intros i Hi. apply range_nonneg in Hi.
    unfold unpack_cell. rewrite land_mask by lia.
    rewrite Z.shiftr_div_pow2 by (apply Z.mul_nonneg_nonneg; lia).
    apply (store_fits np Hok).
    pose proof (Hg i) as Hgi.
    assert (2 ^ binbits <= 2 ^ 31) by (apply Z.pow_le_mono_r; lia).
    unfold fits_int32, int32_min, int32_max. lia.
  - unfold len. rewrite length_map. apply range_length. exact Hm.
  - rewrite Forall_map, Forall_forall. intros i _. apply Hg.
Qed.

Lemma unpack_registers_total_witness :
  exists regs,
    unpack_registers numpy_2_2 [x21; x03] 3 4 = Ok regs /\
    regs = map (fun i => (from_bytes [x21; x03] / 2 ^ (i * 4)) mod 2 ^ 4) (range 3) /\
    len regs = 3 /\
    Forall (fun r => 0 <= r < 2 ^ 4) regs.
Proof.
  apply (unpack_registers_total numpy_2_2 [x21; x03] 3 4).
  - exact numpy_2_2_ok.
  - lia.
  - lia.
  - vm_compute. discriminate.
  - vm_compute. discriminate.
Defined.

(** X8.  [unpack_registers] returns only when [m >= 0], the width is in
    [1, 64] and, unless [m = 0], the data is long enough and the bits are at
    most 2^20; what it returns has [m] registers, each of them an [int32]
    value, also for widths above 31 bits. *)
Theorem unpack_registers_returns (np : numpy) (data : bytes) (m binbits : Z)
        (regs : list Z) :
  numpy_ok np ->
  unpack_registers np data m binbits = Ok regs ->
  0 <= m /\ 1 <= binbits <= 64 /\
  (m = 0 \/ ((m * binbits + 7) / 8 <= len data /\ m * binbits <= 2 ^ 20)) /\
  len regs = m /\
  Forall fits_int32 regs.
Proof.
  intros Hok. unfold unpack_registers.
  destruct (Z.ltb_spec m 0); [discriminate |].
  destruct (Z.leb_spec binbits 0); [discriminate |].
  destruct (Z.ltb_spec 64 binbits); [discriminate |].
  destruct (Z.eqb_spec m 0) as [-> | Hnz].
  - intros E. inversion E.
    split; [lia |]. split; [lia |]. split; [left; reflexivity |].
    split; [reflexivity | constructor].
  - destruct (Z.ltb_spec (len data) ((m * binbits + 7) / 8)); [discriminate |].
    destruct (Z.ltb_spec (2 ^ 20) (m * binbits)); [discriminate |].
    intros E.
    split; [lia |]. split; [lia |]. split; [right; lia |]. split.
    + pose proof (for_fill_length _ _ _ E) as Hl. unfold len. rewrite Hl.
      apply range_length. lia.
    + apply (for_fill_values fits_int32 _ _) with (ys := regs) in E; [exact E |].
      intros i w _ Hw. unfold unpack_cell in Hw.
      apply (store_is_int32 np Hok) in Hw. exact Hw.
Qed.

Lemma unpack_registers_returns_witness :
  0 <= 3 /\ 1 <= 4 <= 64 /\
  (3 = 0 \/ ((3 * 4 + 7) / 8 <= len [x21; x03] /\ 3 * 4 <= 2 ^ 20)) /\
  len [1; 2; 3] = 3 /\
  Forall fits_int32 [1; 2; 3].
Proof.
  apply (unpack_registers_returns numpy_2_2 [x21; x03] 3 4 [1; 2; 3]).
  - exact numpy_2_2_ok.
  - vm_compute. reflexivity.
Defined.

(** ** Sparse codec *)

(** X9.  For widths [b, rbits >= 0], entries of Python integers that fit
    their fields are always compressed, into exactly
    [ceil(n * (b + rbits) / 8)] bytes. *)
Theorem compress_in_range_length (np : numpy) (b rbits : Z) (E : list entry) :
  0 <= b -> 0 <= rbits ->
  Forall (in_range b rbits) E ->
  exists data,
    compress_sparse_registers np (py_entries E) b rbits = Ok data /\
    len data = (len E * (b + rbits) + 7) / 8.
Proof.
  intros Hb Hr Hin.
  destruct (compress_in_range b rbits Hb Hr E Hin) as (data & Hc & _ & Hl).
  exists data. split; [rewrite compress_py_entries; exact Hc | exact Hl].
Qed.

Lemma compress_in_range_length_witness :
  exists data,
    compress_sparse_registers numpy_2_2 (py_entries [(0, 5); (1, 10)]) 4 6 = Ok data /\
    len data = (len [(0, 5); (1, 10)] * (4 + 6) + 7) / 8.
Proof.
  apply (compress_in_range_length numpy_2_2 4 6 [(0, 5); (1, 10)]).
  - lia.
  - lia.
  - repeat constructor; vm_compute; discriminate.
Defined.

Lemma lor_fields_zero_last (entrybits : Z) (fs : list Z) :
  lor_fields entrybits (fs ++ [0]) = lor_fields entrybits fs.
Proof.
  induction fs as [| f fs IH]; cbn [app lor_fields].
  - now rewrite Z.shiftl_0_l.
  - now rewrite IH.
Qed.

(** X10.  On entries given as pairs of Python integers an all-zero entry
    at the end leaves no trace: where it does not change the byte count, the
    entries with and without it are compressed into the same bytes. *)
Theorem compress_trailing_zero_entry (np : numpy) (b rbits : Z) (E : list entry) :
  0 <= b -> 0 <= rbits ->
  (len (E ++ [(0, 0)]) * (b + rbits) + 7) / 8 = (len E * (b + rbits) + 7) / 8 ->
  compress_sparse_registers np (py_entries (E ++ [(0, 0)])) b rbits =
  compress_sparse_registers np (py_entries E) b rbits.
Proof.
  intros Hb Hr Hbytes.
  rewrite !compress_py_entries, !compress_ints_closed by assumption.
  unfold sparse_bytes. rewrite Hbytes. f_equal.
  unfold sparse_bitstream. rewrite map_app. cbn [map].
  replace (entry_field rbits (0, 0)) with 0.
  - apply lor_fields_zero_last.
  - unfold entry_field. cbn [fst snd]. now rewrite Z.shiftl_0_l, Z.land_0_l.
Qed.

Lemma compress_trailing_zero_entry_witness :
  compress_sparse_registers numpy_2_2 (py_entries ([(3, 2)] ++ [(0, 0)])) 2 2 =
  compress_sparse_registers numpy_2_2 (py_entries [(3, 2)]) 2 2.
Proof.
  apply (compress_trailing_zero_entry numpy_2_2 2 2 [(3, 2)]); [lia | lia | reflexivity].
Defined.

Lemma lor_fields_neg (entrybits : Z) (fs : list Z) :
  Exists (fun f => f < 0) fs -> lor_fields entrybits fs < 0.
Proof.
  induction 1 as [f fs Hf | f fs _ IH]; cbn [lor_fields]; apply Z.lor_neg.
  - left. exact Hf.
  - right. apply Z.shiftl_neg. exact IH.
Qed.

(** X11.  On entries given as pairs of Python integers a negative index
    anywhere makes the accumulator negative, and
    [compress_sparse_registers] raises the [OverflowError] of [to_bytes]. *)
Theorem compress_negative_index_raises (np : numpy) (b rbits : Z) (E : list entry) :
  0 <= b -> 0 <= rbits ->
  Exists (fun e => fst e < 0) E ->
  raises_OverflowError (compress_sparse_registers np (py_entries E) b rbits).
Proof.
  intros Hb Hr Hneg.
  rewrite !compress_py_entries, compress_ints_closed by assumption.
  apply to_bytes_overflows.
  - apply sparse_bytes_nonneg; [assumption | assumption | apply len_nonneg].
  - assert (sparse_bitstream E b rbits < 0); [| lia].
    unfold sparse_bitstream. apply lor_fields_neg.
    rewrite Exists_map. eapply Exists_impl; [| exact Hneg].
    intros [idx rho] Hidx. unfold entry_field. cbn [fst snd] in *.
    apply Z.lor_neg. left. apply Z.shiftl_neg. exact Hidx.
Qed.

Lemma compress_negative_index_raises_witness :
  raises_OverflowError (compress_sparse_registers numpy_2_2 (py_entries [(0, 5); (-1, 10)]) 4 6).
Proof.
  apply (compress_negative_index_raises numpy_2_2 4 6 [(0, 5); (-1, 10)]); [lia | lia |].
  apply Exists_cons_tl. apply Exists_cons_hd. cbn. lia.
Defined.



(** X13.  [decompress_sparse_registers] has no test of its widths: with
    [b + rbits = 0] it raises [ZeroDivisionError], and with [b + rbits < 0]
    or [rbits < 0] it raises [ValueError], whatever the data. *)
Theorem decompress_bad_widths (np : numpy) (data : bytes) (b rbits : Z) :
  b + rbits <= 0 \/ rbits < 0 ->
  (b + rbits = 0 ->
   decompress_sparse_registers np data b rbits = Err ZeroDivisionError) /\
  (b + rbits <> 0 ->
   raises_ValueError (decompress_sparse_registers np data b rbits)).
Proof.
  intros Hbad.
  unfold decompress_sparse_registers, py_floordiv, np_empty_rows, py_lshift,
    raises_ValueError.
  split.
  - intros Hz. destruct (Z.eqb_spec (b + rbits) 0); [reflexivity | contradiction].
  - intros Hnz. destruct (Z.eqb_spec (b + rbits) 0); [contradiction |]. cbn [bind].
    destruct (Z.ltb_spec (len data * 8 / (b + rbits)) 0); cbn [bind]; [eauto |].
    destruct (Z.ltb_spec (b + rbits) 0); cbn [bind]; [eauto |].
    destruct (Z.ltb_spec rbits 0); cbn [bind]; [eauto | lia].
Qed.

Lemma decompress_bad_widths_witness :
  decompress_sparse_registers numpy_2_2 [x05; x28; x01] 0 0 = Err ZeroDivisionError /\
  raises_ValueError (decompress_sparse_registers numpy_2_2 [x05; x28; x01] 4 (-1)).
Proof.
  split.
  - apply (decompress_bad_widths numpy_2_2 [x05; x28; x01] 0 0); [lia | reflexivity].
  - apply (decompress_bad_widths numpy_2_2 [x05; x28; x01] 4 (-1)); lia.
Defined.

(** The row at index [i]: the field of [b + rbits] bits at offset
    [i * (b + rbits)], split into its high [b] and its low [rbits] bits. *)
Lemma sparse_row_value (np : numpy) (b rbits V i : Z) :
  numpy_ok np ->
  0 <= b <= 31 -> 0 <= rbits <= 31 -> 0 <= i ->
  sparse_row np b rbits V i =
  Ok (((V / 2 ^ (i * (b + rbits))) mod 2 ^ (b + rbits)) / 2 ^ rbits,
      ((V / 2 ^ (i * (b + rbits))) mod 2 ^ (b + rbits)) mod 2 ^ rbits) /\
  in_range b rbits
    (((V / 2 ^ (i * (b + rbits))) mod 2 ^ (b + rbits)) / 2 ^ rbits,
     ((V / 2 ^ (i * (b + rbits))) mod 2 ^ (b + rbits)) mod 2 ^ rbits).
Proof.
  intros Hok Hb Hr Hi.
  set (f := (V / 2 ^ (i * (b + rbits))) mod 2 ^ (b + rbits)).
  assert (Hf : 0 <= f < 2 ^ (b + rbits))
    by (apply Z.mod_pos_bound; apply Z.pow_pos_nonneg; lia).
  assert (Hp : 0 < 2 ^ rbits) by (apply Z.pow_pos_nonneg; lia).
  assert (Hidx : 0 <= f / 2 ^ rbits < 2 ^ b).
  { split; [apply Z.div_pos; lia |].
    apply Z.div_lt_upper_bound; [lia |].
    rewrite <- Z.pow_add_r by lia. rewrite Z.add_comm. lia. }
  pose proof (Z.mod_pos_bound f (2 ^ rbits) Hp) as Hrho.
  split; [| split; assumption].
  unfold sparse_row, decompress_row, py_rshift.
  destruct (Z.ltb_spec (i * (b + rbits)) 0);
    [assert (0 <= i * (b + rbits)) by (apply Z.mul_nonneg_nonneg; lia); lia |].
  cbn [bind].
  destruct (Z.ltb_spec rbits 0); [lia |]. cbn [bind].
  rewrite !land_mask by lia.
  rewrite !Z.shiftr_div_pow2 by (lia || apply Z.mul_nonneg_nonneg; lia).
  fold f.
  assert (2 ^ b <= 2 ^ 31) by (apply Z.pow_le_mono_r; lia).
  assert (2 ^ rbits <= 2 ^ 31) by (apply Z.pow_le_mono_r; lia).
  rewrite (store_fits np Hok) by (unfold fits_int32, int32_min, int32_max; lia).
  cbn [bind].
  rewrite (store_fits np Hok) by (unfold fits_int32, int32_min, int32_max; lia).
  reflexivity.
Qed.

(** X14.  For widths [0 <= b <= 31] and [0 <= rbits <= 31] with
    [b + rbits >= 1], every entry that [decompress_sparse_registers] returns
    fits its fields: [0 <= index < 2^b] and [0 <= rho < 2^rbits]. *)
Theorem decompress_rows_in_range (np : numpy) (data : bytes) (b rbits : Z)
        (rows : list entry) :
  numpy_ok np ->
  0 <= b <= 31 -> 0 <= rbits <= 31 -> 0 < b + rbits ->
  decompress_sparse_registers np data b rbits = Ok rows ->
  Forall (in_range b rbits) rows.
Proof.
  intros Hok Hb Hr He.
  rewrite decompress_sparse_registers_closed by lia.
  apply for_fill_values. intros i e Hi Hrow. apply range_nonneg in Hi.
  destruct (sparse_row_value np b rbits (from_bytes data) i Hok Hb Hr ltac:(lia))
    as [Hv Hin].
  rewrite Hv in Hrow. inversion Hrow. subst e. exact Hin.
Qed.

Lemma decompress_rows_in_range_witness : Forall (in_range 4 6) [(0, 5); (1, 10)].
Proof.
  apply (decompress_rows_in_range numpy_2_2 [x05; x28; x01] 4 6 [(0, 5); (1, 10)]).
  - exact numpy_2_2_ok.
  - lia.
  - lia.
  - lia.
  - vm_compute. reflexivity.
Defined.

(** The fields of [entrybits] bits read at the slots [0 .. k - 1] of [V],
    or-ed together again, are the low [k * entrybits] bits of [V]. *)
Lemma fields_rebuild (entrybits : Z) (k : nat) :
  0 <= entrybits ->
  forall V,
    lor_fields entrybits
      (map (fun i => (V / 2 ^ (i * entrybits)) mod 2 ^ entrybits) (range (Z.of_nat k))) =
    V mod 2 ^ (Z.of_nat k * entrybits).
Proof.
  intros He. induction k as [| k IH]; intros V.
  - cbn. now rewrite Z.mod_1_r.
  - rewrite range_succ. cbn [map lor_fields]. rewrite map_map.
    assert (Hp : 0 < 2 ^ entrybits) by (apply Z.pow_pos_nonneg; lia).
    rewrite (map_ext_in _ (fun i => ((V / 2 ^ entrybits) / 2 ^ (i * entrybits))
                                      mod 2 ^ entrybits)).
    + rewrite IH, Z.mul_0_l, Z.pow_0_r, Z.div_1_r.
      rewrite lor_low_shiftl by (try apply Z.mod_pos_bound; lia).
      replace (Z.of_nat (S k) * entrybits) with (entrybits + Z.of_nat k * entrybits) by lia.
      rewrite Z.pow_add_r by (lia || apply Z.mul_nonneg_nonneg; lia).
      rewrite Z.rem_mul_r by (lia || apply Z.pow_pos_nonneg; apply Z.mul_nonneg_nonneg; lia).
      lia.
    + intros i Hi. apply range_nonneg in Hi.
      rewrite Z.div_div by (lia || apply Z.pow_pos_nonneg; apply Z.mul_nonneg_nonneg; lia).
      rewrite <- Z.pow_add_r by (lia || apply Z.mul_nonneg_nonneg; lia).
      do 3 f_equal. lia.
Qed.

(** X15.  When the bits of the data are a whole number of slots
    ([8 * len(data)] is a multiple of [b + rbits]), compressing the rows
    that [decompress_sparse_registers] returns, once they are converted to
    pairs of Python integers, gives the data back. *)
Theorem decompress_compress (np : numpy) (data : bytes) (b rbits : Z) :
  numpy_ok np ->
  0 <= b <= 31 -> 0 <= rbits <= 31 -> 0 < b + rbits ->
  (len data * 8) mod (b + rbits) = 0 ->
  exists rows,
    decompress_sparse_registers np data b rbits = Ok rows /\
    compress_sparse_registers np (py_entries rows) b rbits = Ok data.
Proof.
  intros Hok Hb Hr He Hwhole.
  pose proof (len_nonneg data) as HL.
  set (N := len data * 8 / (b + rbits)).
  assert (HN : 0 <= N) by (apply Z.div_pos; lia).
  assert (HNe : N * (b + rbits) = 8 * len data).
  { pose proof (Z_div_exact_full_2 (len data * 8) (b + rbits) ltac:(lia) Hwhole).
    unfold N. lia. }
  set (V := from_bytes data).
  set (row := fun i =>
                (((V / 2 ^ (i * (b + rbits))) mod 2 ^ (b + rbits)) / 2 ^ rbits,
                 ((V / 2 ^ (i * (b + rbits))) mod 2 ^ (b + rbits)) mod 2 ^ rbits)).
  exists (map row (range N)). split.
  - rewrite decompress_sparse_registers_closed by lia. fold N V.
    apply for_fill_ok_map. intros i Hi. apply range_nonneg in Hi.
    apply sparse_row_value; assumption || lia.
  - rewrite !compress_py_entries, compress_ints_closed by lia.
    assert (Hlen : @len entry (map row (range N)) = N)
      by (unfold len; rewrite length_map; apply range_length; exact HN).
    rewrite Hlen. unfold sparse_bytes. rewrite HNe.
    replace ((8 * len data + 7) / 8) with (len data)
      by (apply Z.div_unique with (r := 7); lia).
    assert (Hbits : sparse_bitstream (map row (range N)) b rbits = V).
    { unfold sparse_bitstream. rewrite map_map.
      rewrite (map_ext_in _ (fun i => (V / 2 ^ (i * (b + rbits))) mod 2 ^ (b + rbits))).
      - rewrite <- (Z2Nat.id N HN) at 1.
        rewrite fields_rebuild by lia.
        rewrite Z2Nat.id, HNe by exact HN.
        apply Z.mod_small. apply from_bytes_bound.
      - intros i Hi. apply range_nonneg in Hi.
        destruct (sparse_row_value np b rbits V i Hok Hb Hr ltac:(lia)) as [_ Hin].
        destruct (entry_field_in_range b rbits ltac:(lia) ltac:(lia) _ Hin) as [Ef _].
        fold (row i) in Ef, Hin. rewrite Ef. unfold row. cbn [fst snd].
        pose proof (Z.div_mod ((V / 2 ^ (i * (b + rbits))) mod 2 ^ (b + rbits))
                              (2 ^ rbits) ltac:(apply Z.pow_nonzero; lia)).
        lia. }
    rewrite Hbits.
    rewrite to_bytes_fits by (lia || apply from_bytes_bound).
    unfold len. rewrite Nat2Z.id. unfold V. now rewrite le_bytes_from_bytes.
Qed.

Lemma decompress_compress_witness :
  exists rows,
    decompress_sparse_registers numpy_2_2 [x0e] 2 2 = Ok rows /\
    compress_sparse_registers numpy_2_2 (py_entries rows) 2 2 = Ok [x0e].
Proof.
  apply (decompress_compress numpy_2_2 [x0e] 2 2).
  - exact numpy_2_2_ok.
  - lia.
  - lia.
  - lia.
  - reflexivity.
Defined.

(** X16.  For widths [b, rbits >= 0] with [b + rbits >= 1] and in-range
    entries that fit [int32], given as pairs of Python integers, decoding
    the compressed entries gives them back, followed by one [(0, 0)] entry for every whole slot of
    [b + rbits] bits that the padding of the last byte holds. *)
Theorem sparse_round_trip_with_padding (np : numpy) (b rbits : Z) (E : list entry) :
  numpy_ok np ->
  0 <= b -> 0 <= rbits -> 0 < b + rbits ->
  Forall (in_range b rbits) E ->
  Forall entry_fits_int32 E ->
  exists data,
    compress_sparse_registers np (py_entries E) b rbits = Ok data /\
    decompress_sparse_registers np data b rbits =
    Ok (E ++ repeat (0, 0)
              (Z.to_nat (8 * ((len E * (b + rbits) + 7) / 8) / (b + rbits) - len E))).
Proof.
  intros Hok Hb Hr He Hin Hfit.
  destruct (sparse_round_trip_padded np Hok b rbits Hb Hr He E Hin Hfit)
    as (data & Hc & Hd).
  exists data. split; [rewrite compress_py_entries; exact Hc | exact Hd].
Qed.

Lemma sparse_round_trip_with_padding_witness :
  exists data,
    compress_sparse_registers numpy_2_2 (py_entries [(1, 0); (0, 1)]) 1 1 = Ok data /\
    decompress_sparse_registers numpy_2_2 data 1 1 =
    Ok ([(1, 0); (0, 1)] ++ repeat (0, 0)
          (Z.to_nat (8 * ((len [(1, 0); (0, 1)] * (1 + 1) + 7) / 8) / (1 + 1)
                     - len [(1, 0); (0, 1)]))).
Proof.
  apply (sparse_round_trip_with_padding numpy_2_2 1 1 [(1, 0); (0, 1)]).
  - exact numpy_2_2_ok.
  - lia.
  - lia.
  - lia.
  - repeat constructor; vm_compute; discriminate.
  - repeat constructor; vm_compute; discriminate.
Defined.

(** X17.  [decompress_sparse_registers] returns only for [rbits >= 0] and
    [b + rbits >= 1]; what it returns has [(len(data) * 8) // (b + rbits)]
    entries, all of them pairs of [int32] values, whatever the widths. *)
Theorem decompress_returns (np : numpy) (data : bytes) (b rbits : Z)
        (rows : list entry) :
  numpy_ok np ->
  decompress_sparse_registers np data b rbits = Ok rows ->
  0 <= rbits /\ 0 < b + rbits /\
  len rows = len data * 8 / (b + rbits) /\
  Forall entry_fits_int32 rows.
Proof.
  intros Hok.
  unfold decompress_sparse_registers, py_floordiv, np_empty_rows, py_lshift.
  destruct (Z.eqb_spec (b + rbits) 0); [discriminate |]. cbn [bind].
  destruct (Z.ltb_spec (len data * 8 / (b + rbits)) 0); [discriminate |]. cbn [bind].
  destruct (Z.ltb_spec (b + rbits) 0); [discriminate |]. cbn [bind].
  destruct (Z.ltb_spec rbits 0); [discriminate |]. cbn [bind].
  intros E. split; [lia |]. split; [lia |]. split.
  - pose proof (for_fill_length _ _ _ E) as Hl. unfold len at 1. rewrite Hl.
    apply range_length. assumption.
  - apply (for_fill_values entry_fits_int32 _ _) with (ys := rows) in E; [exact E |].
    intros i e _. unfold decompress_row.
    destruct (py_rshift _ _) as [shifted | ?]; cbn [bind]; [| discriminate].
    destruct (py_rshift _ _) as [idx | ?]; cbn [bind]; [| discriminate].
    destruct (store_int32 np idx) as [idx' |] eqn:Ei; cbn [bind]; [| discriminate].
    destruct (store_int32 np (Z.land _ _)) as [rho' |] eqn:Er; cbn [bind];
      [| discriminate].
    intros Ee. inversion Ee. split; cbn [fst snd].
    + apply (store_is_int32 np Hok) in Ei. exact Ei.
    + apply (store_is_int32 np Hok) in Er. exact Er.
Qed.

Lemma decompress_returns_witness :
  0 <= 6 /\ 0 < 4 + 6 /\
  len [(0, 5); (1, 10)] = len [x05; x28; x01] * 8 / (4 + 6) /\
  Forall entry_fits_int32 [(0, 5); (1, 10)].
Proof.
  apply (decompress_returns numpy_2_2 [x05; x28; x01] 4 6 [(0, 5); (1, 10)]).
  - exact numpy_2_2_ok.
  - vm_compute. reflexivity.
Defined.

(** X18.  For widths [0 <= b <= 31] and [0 <= rbits <= 31] with
    [b + rbits >= 1], two lists of in-range entries of the same length,
    given as pairs of Python integers, that are compressed into the same
    bytes are the same list. *)
Theorem compress_injective (np : numpy) (b rbits : Z) (E E' : list entry) :
  0 <= b <= 31 -> 0 <= rbits <= 31 -> 0 < b + rbits ->
  Forall (in_range b rbits) E -> Forall (in_range b rbits) E' ->
  length E = length E' ->
  compress_sparse_registers np (py_entries E) b rbits = compress_sparse_registers np (py_entries E') b rbits ->
  E = E'.
Proof.
  intros Hb Hr He Hin Hin' Hlen Heq.
  assert (Hfit : forall l, Forall (in_range b rbits) l -> Forall entry_fits_int32 l).
  { intros l Hl. eapply Forall_impl; [| exact Hl].
    intros e. apply (in_range_fits_int32 b rbits); lia. }
  destruct (sparse_round_trip_padded numpy_2_2 numpy_2_2_ok b rbits
              ltac:(lia) ltac:(lia) He E Hin (Hfit E Hin)) as (data & Hc & Hd).
  destruct (sparse_round_trip_padded numpy_2_2 numpy_2_2_ok b rbits
              ltac:(lia) ltac:(lia) He E' Hin' (Hfit E' Hin')) as (data' & Hc' & Hd').
  rewrite !compress_py_entries, Hc, Hc' in Heq. inversion Heq. subst data'.
  rewrite Hd in Hd'. inversion Hd' as [Happ].
  unfold len in Happ. rewrite Hlen in Happ.
  apply app_inv_tail in Happ. exact Happ.
Qed.

Lemma compress_injective_witness :
  compress_sparse_registers numpy_2_2 (py_entries [(0, 5); (1, 10)]) 4 6 = Ok [x05; x28; x01] /\
  [(0, 5); (1, 10)] = [(0, 5); (1, 10)].
Proof.
  split; [vm_compute; reflexivity |].
  apply (compress_injective numpy_2_2 4 6 [(0, 5); (1, 10)] [(0, 5); (1, 10)]).
  - lia.
  - lia.
  - lia.
  - repeat constructor; vm_compute; discriminate.
  - repeat constructor; vm_compute; discriminate.
  - reflexivity.
  - reflexivity.
Defined.

(** ** The sparse encoder on an array *)

(** X21.  On an [int32] array of shape [(n, 2)], the declared argument,
    [compress_sparse_registers] returns bytes only when the array has no
    row: then it returns the empty bytes.  With one row or more it returns
    nothing, whatever the widths and the values: the accumulator is a NumPy
    scalar by then, which has no [to_bytes]. *)
Theorem compress_array_never_returns (np : numpy) (rows : list entry) (b rbits : Z) :
  compress_sparse_registers np (int32_rows []) b rbits = Ok [] /\
  (rows <> [] ->
   forall data, compress_sparse_registers np (int32_rows rows) b rbits <> Ok data).
Proof.
  split; [reflexivity |].
  intros Hne data. destruct rows as [| e es]; [contradiction |].
  apply compress_int32_rows_fails.
Qed.

Lemma compress_array_never_returns_witness :
  compress_sparse_registers numpy_2_2 (int32_rows []) 4 6 = Ok [] /\
  forall data,
    compress_sparse_registers numpy_2_2 (int32_rows [(0, 5); (1, 10)]) 4 6 <> Ok data.
Proof.
  destruct (compress_array_never_returns numpy_2_2 [(0, 5); (1, 10)] 4 6) as [Hnil Hrows].
  split; [exact Hnil |]. apply Hrows. discriminate.
Defined.

(** X22.  With the [int32] arithmetic of NumPy 2.x, for [0 <= rbits <= 31],
    [b + rbits >= 0] and an array of [n >= 1] rows with
    [n * (b + rbits) <= 2^31 - 1], no operation of the loop raises and
    [compress_sparse_registers] raises [AttributeError] at its last line. *)
Theorem compress_array_attribute_error (np : numpy) (rows : list entry) (b rbits : Z) :
  np_binop np = int32_binop ->
  rows <> [] ->
  0 <= rbits <= 31 -> 0 <= b + rbits ->
  len rows * (b + rbits) <= int32_max ->
  compress_sparse_registers np (int32_rows rows) b rbits = Err AttributeError.
Proof.
  intros Hnp Hne Hr He Hend.
  destruct (compress_loop_int32 np b rbits rows Hnp Hr He (PyInt 0) 0)
    as (a' & Hloop & Hacc).
  - lia.
  - lia.
  - exists 0. reflexivity.
  - destruct (Hacc Hne) as [z ->].
    unfold compress_sparse_registers. rewrite Hloop. reflexivity.
Qed.

Lemma compress_array_attribute_error_witness :
  compress_sparse_registers numpy_2_2 (int32_rows [(0, 5); (1, 10)]) 4 6 = Err AttributeError.
Proof.
  apply (compress_array_attribute_error numpy_2_2 [(0, 5); (1, 10)] 4 6).
  - reflexivity.
  - discriminate.
  - lia.
  - lia.
  - vm_compute. discriminate.
Defined.

(** ** The checks of the dense encoder *)

Lemma check_register_cases (max_val : Z) (i : nat) (val : scalar) :
  check_register max_val i val = Ok tt \/
  raises_ValueError (check_register max_val i val).
Proof.
  unfold check_register, raises_ValueError.
  destruct (negb (isinstance_int val)); [eauto |].
  destruct (scalar_value val <? 0); [eauto |].
  destruct (max_val <? scalar_value val); eauto.
Qed.

Lemma for_each_check_raises (max_val : Z) (R : list Z) :
  Exists (fun v => v < 0 \/ max_val < v) R ->
  forall i, raises_ValueError (for_each (check_register max_val) i (map PyInt R)).
Proof.
  induction R as [| v R IH]; intros Hbad i; [inversion Hbad |].
  cbn [map for_each].
  destruct (check_register_cases max_val i (PyInt v)) as [Hok | [why Hwhy]].
  - rewrite Hok. cbn [bind]. apply IH.
    inversion Hbad as [? ? Hv | ? ? Htl]; subst; [| exact Htl].
    exfalso. unfold check_register in Hok. cbn [isinstance_int negb scalar_value] in Hok.
    destruct (Z.ltb_spec v 0); [discriminate |].
    destruct (Z.ltb_spec max_val v); [discriminate | lia].
  - rewrite Hwhy. cbn [bind]. exists why. reflexivity.
Qed.

(** X19.  Lines 34-51 of [pack_registers], run on Python integers with a
    width in [1, 64]: a register that is negative or above [2^binbits - 1]
    makes them raise [ValueError], also above the ceiling; registers that
    are all in range and make more than 2^20 bits make them raise
    [OverflowError]. *)
Theorem pack_body_rejects (binbits : Z) (R : list Z) :
  1 <= binbits <= 64 ->
  (Exists (fun v => v < 0 \/ 2 ^ binbits - 1 < v) R ->
   raises_ValueError (pack_body binbits (map PyInt R))) /\
  (Forall (fun v => 0 <= v < 2 ^ binbits) R ->
   2 ^ 20 < len R * binbits ->
   pack_body binbits (map PyInt R) = Err (OverflowError total_bits_too_large)).
Proof.
  intros Hb. split.
  - intros Hbad. unfold pack_body. rewrite Z.shiftl_1_l.
    destruct (for_each_check_raises (2 ^ binbits - 1) R Hbad 0%nat) as [why Hwhy].
    rewrite Hwhy. exists why. reflexivity.
  - intros Hin Hcap. unfold pack_body.
    rewrite check_registers_pass by assumption. cbn [bind].
    replace (len (map PyInt R)) with (len R) by (unfold len; now rewrite length_map).
    destruct (Z.ltb_spec (2 ^ 20) (len R * binbits)); [reflexivity | lia].
Qed.

Lemma pack_body_rejects_witness :
  raises_ValueError (pack_body 4 (map PyInt [1; 16])) /\
  pack_body 64 (map PyInt (repeat 0 (Z.to_nat 16385))) =
    Err (OverflowError total_bits_too_large).
Proof.
  split.
  - apply (pack_body_rejects 4 [1; 16]); [lia |].
    apply Exists_cons_tl. apply Exists_cons_hd. right. reflexivity.
  - apply (pack_body_rejects 64 (repeat 0 (Z.to_nat 16385))); [lia | |].
    + apply Forall_forall. intros v Hv. apply repeat_spec in Hv. subst v.
      split; [lia | reflexivity].
    + unfold len. rewrite repeat_length, Z2Nat.id by lia. reflexivity.
Defined.
